(** * Delegate-hierarchy transformation of the enhancer plugin

    Shallow embedding of [packages/schema/src/plugins/enhancer/enhance/index.ts]
    ([EnhancerGenerator]) together with the small parts of ts-morph, of the
    JavaScript string and RegExp primitives, and of the ZModel AST that the
    generator relies on. *)

From Stdlib Require Import String Ascii List Bool Arith Lia.
Import ListNotations.

Local Open Scope string_scope.
Local Open Scope list_scope.

Set Warnings "-register-all".

Infix "+++" := String.append (at level 60, right associativity).

(** ** JavaScript string primitives *)

Definition nl : string := String (ascii_of_nat 10) EmptyString.

(** [s.startsWith(p)] *)
Definition startsWith (s p : string) : bool := String.prefix p s.

Fixpoint dropS (n : nat) (s : string) : string :=
  match n, s with
  | 0, _ => s
  | S n', String _ s' => dropS n' s'
  | S _, EmptyString => EmptyString
  end.

(** [s.replace(pat, '')]: the first occurrence of [pat] is deleted; when
    there is none the string is returned unchanged. *)
Fixpoint jsReplace (pat s : string) : string :=
  if String.prefix pat s then dropS (String.length pat) s
  else match s with
       | EmptyString => EmptyString
       | String c s' => String c (jsReplace pat s')
       end.

(** [s.includes(p)] *)
Fixpoint includes (s p : string) : bool :=
  String.prefix p s ||
  match s with
  | EmptyString => false
  | String _ s' => includes s' p
  end.

(** [upperCaseFirst] of the [upper-case-first] package *)
Definition upperAscii (c : ascii) : ascii :=
  let n := nat_of_ascii c in
  if (97 <=? n)%nat && (n <=? 122)%nat then ascii_of_nat (n - 32)%nat else c.

Definition upperCaseFirst (s : string) : string :=
  match s with
  | EmptyString => EmptyString
  | String c s' => String (upperAscii c) s'
  end.

(** [s.split('_')] *)
Fixpoint splitOn (sep : ascii) (s : string) : list string :=
  match s with
  | EmptyString => [EmptyString]
  | String c s' =>
      if Ascii.eqb c sep then EmptyString :: splitOn sep s'
      else match splitOn sep s' with
           | w :: ws => String c w :: ws
           | [] => [String c EmptyString]
           end
  end.

(** ** The ZModel AST (the resolved schema graph) *)

Inductive Expression :=
| ReferenceExpr (target : string)
| InvocationExpr (function : string) (args : list Expression)
| MemberAccessExpr (operand : Expression) (member : string)
| LiteralExpr (value : string)
| ArrayExpr (items : list Expression).

Record AttributeArg := mkAttributeArg {
  arg_name : option string;
  arg_value : Expression
}.

Record Attribute := mkAttribute {
  attr_decl : string;
  attr_args : list AttributeArg
}.

Record DataModelField := mkDataModelField {
  field_name : string;
  field_attributes : list Attribute
}.

(** A data model; [superTypes] holds the reference texts of the [extends]
    clause, resolved by [resolveDataModel]. *)
Record DataModel := mkDataModel {
  dm_name : string;
  dm_fields : list DataModelField;
  dm_attributes : list Attribute;
  dm_superTypes : list string
}.

Inductive Declaration :=
| DeclDataModel (dm : DataModel)
| DeclOther (name : string).

Definition Model := list Declaration.

Definition isDataModel (d : Declaration) : option DataModel :=
  match d with DeclDataModel dm => Some dm | DeclOther _ => None end.

(** [model.declarations.filter(isDataModel)] *)
Definition dataModelsOf (m : Model) : list DataModel :=
  flat_map (fun d => match isDataModel d with Some dm => [dm] | None => [] end) m.

(** Modelled from the spec: [getDataModels] (sdk, not under src/) lists the
    entities of the schema, in declaration order. *)
Definition getDataModels (m : Model) : list DataModel := dataModelsOf m.

(** Linking of a supertype reference: the data model of that name. Names of
    declarations are unique in a validated schema, so [s.ref === dm] is
    decided by comparing the resolved model's name with [dm]'s. *)
Definition resolveDataModel (m : Model) (s : string) : option DataModel :=
  find (fun dm => String.eqb (dm_name dm) s) (dataModelsOf m).

Definition refersTo (m : Model) (s : string) (dm : DataModel) : bool :=
  match resolveDataModel m s with
  | Some d => String.eqb (dm_name d) (dm_name dm)
  | None => false
  end.

(** [getAttribute(decl, name)] *)
Definition getAttribute (attrs : list Attribute) (name : string) : option Attribute :=
  find (fun a => String.eqb (attr_decl a) name) attrs.

(** [getAttributeArg(attr, name)] *)
Definition getAttributeArg (a : Attribute) (name : string) : option Expression :=
  match find (fun x => match arg_name x with
                       | Some n => String.eqb n name
                       | None => false
                       end) (attr_args a) with
  | Some x => Some (arg_value x)
  | None => None
  end.

(** Modelled from the spec: [isDelegateModel] (sdk, not under src/) holds of
    an entity that carries the delegate marker [@@delegate]. *)
Definition isDelegateModel (dm : DataModel) : bool :=
  match getAttribute (dm_attributes dm) "@@delegate" with
  | Some _ => true
  | None => false
  end.

(** Modelled from the spec: the reserved synthetic prefix
    [DELEGATE_AUX_RELATION_PREFIX] (runtime package, not under src/); its
    value follows the source's comments ([delegate_aux_*]). *)
Definition DELEGATE_AUX_RELATION_PREFIX : string := "delegate_aux".

(** ** JavaScript regular expressions

    The generator builds its patterns as strings and hands them to
    [new RegExp(..)].  We parse the subset of the (non-unicode, Annex B)
    pattern syntax those strings use and run a backtracking matcher with
    JavaScript's leftmost, ordered-alternative, greedy semantics. *)

Inductive CharClass :=
| CAny            (* [.]: any character but a line terminator *)
| CChar (c : ascii)
| CDigit | CNonDigit | CWord | CNonWord | CSpace | CNonSpace.

Inductive Regex :=
| REmpty
| RClass (k : CharClass)
| RStar (k : CharClass)               (* greedy [k*] *)
| ROpt (r : Regex)                    (* greedy [r?] *)
| RSeq (r1 r2 : Regex)
| RAlt (r1 r2 : Regex)
| RGroup (n : nat) (r : Regex)        (* capturing group number [n] *)
| RWordBoundary
| RNotWordBoundary.

Definition isDigitA (c : ascii) : bool :=
  let n := nat_of_ascii c in (48 <=? n)%nat && (n <=? 57)%nat.

Definition isWordA (c : ascii) : bool :=
  let n := nat_of_ascii c in
  isDigitA c || ((65 <=? n)%nat && (n <=? 90)%nat)
  || ((97 <=? n)%nat && (n <=? 122)%nat) || (n =? 95)%nat.

Definition isSpaceA (c : ascii) : bool :=
  let n := nat_of_ascii c in
  (n =? 32)%nat || ((9 <=? n)%nat && (n <=? 13)%nat).

Definition isLineTerminatorA (c : ascii) : bool :=
  let n := nat_of_ascii c in (n =? 10)%nat || (n =? 13)%nat.

Definition classMatches (k : CharClass) (c : ascii) : bool :=
  match k with
  | CAny => negb (isLineTerminatorA c)
  | CChar d => Ascii.eqb c d
  | CDigit => isDigitA c
  | CNonDigit => negb (isDigitA c)
  | CWord => isWordA c
  | CNonWord => negb (isWordA c)
  | CSpace => isSpaceA c
  | CNonSpace => negb (isSpaceA c)
  end.

Definition Captures := list (nat * list ascii).

Definition atBoundary (prev : option ascii) (s : list ascii) : bool :=
  let w1 := match prev with Some c => isWordA c | None => false end in
  let w2 := match s with c :: _ => isWordA c | [] => false end in
  xorb w1 w2.

(** [matchRe r prev s caps k]: match [r] at the front of [s] ([prev] is the
    character just before), then continue with [k]; backtracking is the
    fall-through to the next alternative when a continuation fails. *)
Fixpoint matchRe (r : Regex) (prev : option ascii) (s : list ascii) (caps : Captures)
  (k : option ascii -> list ascii -> Captures -> option Captures) {struct r}
  : option Captures :=
  match r with
  | REmpty => k prev s caps
  | RClass c =>
      match s with
      | x :: s' => if classMatches c x then k (Some x) s' caps else None
      | [] => None
      end
  | RStar c =>
      (fix star (p : option ascii) (s0 : list ascii) : option Captures :=
         match s0 with
         | x :: s' =>
             if classMatches c x then
               match star (Some x) s' with
               | Some res => Some res
               | None => k p s0 caps
               end
             else k p s0 caps
         | [] => k p s0 caps
         end) prev s
  | ROpt r1 =>
      match matchRe r1 prev s caps k with
      | Some res => Some res
      | None => k prev s caps
      end
  | RSeq r1 r2 => matchRe r1 prev s caps (fun p s' c' => matchRe r2 p s' c' k)
  | RAlt r1 r2 =>
      match matchRe r1 prev s caps k with
      | Some res => Some res
      | None => matchRe r2 prev s caps k
      end
  | RGroup n r1 =>
      matchRe r1 prev s caps
        (fun p s' c' => k p s' ((n, firstn (length s - length s') s) :: c'))
  | RWordBoundary => if atBoundary prev s then k prev s caps else None
  | RNotWordBoundary => if atBoundary prev s then None else k prev s caps
  end.

(** [regex.exec(str)]: the leftmost match, with its captures. *)
Fixpoint execFrom (r : Regex) (prev : option ascii) (s : list ascii) : option Captures :=
  match matchRe r prev s [] (fun _ _ c => Some c) with
  | Some c => Some c
  | None =>
      match s with
      | [] => None
      | x :: s' => execFrom r (Some x) s'
      end
  end.

Definition exec (r : Regex) (str : string) : option Captures :=
  execFrom r None (list_ascii_of_string str).

(** [match[n]] *)
Definition capture (c : Captures) (n : nat) : option string :=
  match find (fun e => Nat.eqb (fst e) n) c with
  | Some (_, v) => Some (string_of_list_ascii v)
  | None => None
  end.

(** *** Parsing a pattern string *)

Definition isSpecialA (c : ascii) : bool :=
  existsb (Ascii.eqb c) ["("; ")"; "|"; "?"; "*"; "+"; "["; "{"; "^"; "$"; "."]%char.

Definition isLetterA (c : ascii) : bool :=
  let n := nat_of_ascii c in
  ((65 <=? n)%nat && (n <=? 90)%nat) || ((97 <=? n)%nat && (n <=? 122)%nat).

Definition isHexA (c : ascii) : bool :=
  let n := nat_of_ascii c in
  isDigitA c || ((65 <=? n)%nat && (n <=? 70)%nat) || ((97 <=? n)%nat && (n <=? 102)%nat).

(** An atom escape [\c] followed by [rest]: [Some (inl k)] a character class,
    [Some (inr r)] an assertion, [None] a form this model leaves out
    (hexadecimal and unicode escapes, back-references). *)
Definition parseEscape (c : ascii) (rest : list ascii)
  : option ((CharClass + Regex) * list ascii) :=
  let n := nat_of_ascii c in
  if (n =? 100)%nat then Some (inl CDigit, rest)          (* d *)
  else if (n =? 68)%nat then Some (inl CNonDigit, rest)   (* D *)
  else if (n =? 119)%nat then Some (inl CWord, rest)      (* w *)
  else if (n =? 87)%nat then Some (inl CNonWord, rest)    (* W *)
  else if (n =? 115)%nat then Some (inl CSpace, rest)     (* s *)
  else if (n =? 83)%nat then Some (inl CNonSpace, rest)   (* S *)
  else if (n =? 98)%nat then Some (inr RWordBoundary, rest)     (* b *)
  else if (n =? 66)%nat then Some (inr RNotWordBoundary, rest)  (* B *)
  else if (n =? 110)%nat then Some (inl (CChar (ascii_of_nat 10)), rest)  (* n *)
  else if (n =? 116)%nat then Some (inl (CChar (ascii_of_nat 9)), rest)   (* t *)
  else if (n =? 114)%nat then Some (inl (CChar (ascii_of_nat 13)), rest)  (* r *)
  else if (n =? 102)%nat then Some (inl (CChar (ascii_of_nat 12)), rest)  (* f *)
  else if (n =? 118)%nat then Some (inl (CChar (ascii_of_nat 11)), rest)  (* v *)
  else if (n =? 99)%nat then                                   (* c *)
    match rest with
    | x :: rest' =>
        if isLetterA x then Some (inl (CChar (ascii_of_nat (nat_of_ascii x mod 32))), rest')
        else Some (inl (CChar "\"%char), c :: rest)
    | [] => Some (inl (CChar "\"%char), c :: rest)
    end
  else if isDigitA c then None
  else if (n =? 120)%nat then                                  (* x *)
    match rest with
    | h1 :: h2 :: _ => if isHexA h1 && isHexA h2 then None else Some (inl (CChar c), rest)
    | _ => Some (inl (CChar c), rest)
    end
  else if (n =? 117)%nat then                                  (* u *)
    match rest with
    | h1 :: h2 :: h3 :: h4 :: _ =>
        if isHexA h1 && isHexA h2 && isHexA h3 && isHexA h4 then None
        else Some (inl (CChar c), rest)
    | _ => Some (inl (CChar c), rest)
    end
  else Some (inl (CChar c), rest).

(** Postfix quantifier after a character atom. *)
Definition quantify (k : CharClass) (n : nat) (s : list ascii)
  : option (Regex * nat * list ascii) :=
  match s with
  | "?"%char :: s' => Some (ROpt (RClass k), n, s')
  | "*"%char :: s' => Some (RStar k, n, s')
  | "+"%char :: s' => Some (RSeq (RClass k) (RStar k), n, s')
  | _ => Some (RClass k, n, s)
  end.

(** Recursive descent over [alternative ('|' alternative)*]; [n] counts the
    capturing groups opened so far; [fuel] bounds the recursion depth. *)
Fixpoint parseAlt (fuel n : nat) (s : list ascii) {struct fuel}
  : option (Regex * nat * list ascii) :=
  match fuel with
  | 0 => None
  | S f =>
      match parseSeq f n s with
      | Some (r1, n1, "|"%char :: s1) =>
          match parseAlt f n1 s1 with
          | Some (r2, n2, s2) => Some (RAlt r1 r2, n2, s2)
          | None => None
          end
      | res => res
      end
  end
with parseSeq (fuel n : nat) (s : list ascii) {struct fuel}
  : option (Regex * nat * list ascii) :=
  match fuel with
  | 0 => None
  | S f =>
      match s with
      | [] => Some (REmpty, n, [])
      | c :: _ =>
          if Ascii.eqb c ")" || Ascii.eqb c "|" then Some (REmpty, n, s)
          else match parseAtom f n s with
               | Some (a, n1, s1) =>
                   match parseSeq f n1 s1 with
                   | Some (r, n2, s2) => Some (RSeq a r, n2, s2)
                   | None => None
                   end
               | None => None
               end
      end
  end
with parseAtom (fuel n : nat) (s : list ascii) {struct fuel}
  : option (Regex * nat * list ascii) :=
  match fuel with
  | 0 => None
  | S f =>
      match s with
      | "("%char :: s1 =>
          match parseAlt f (S n) s1 with
          | Some (r, n1, ")"%char :: "?"%char :: s2) => Some (ROpt (RGroup (S n) r), n1, s2)
          | Some (r, n1, ")"%char :: s2) =>
              match s2 with
              | c :: _ => if isSpecialA c && negb (Ascii.eqb c "(") && negb (Ascii.eqb c ")")
                             && negb (Ascii.eqb c "|") && negb (Ascii.eqb c ".")
                          then None else Some (RGroup (S n) r, n1, s2)
              | [] => Some (RGroup (S n) r, n1, s2)
              end
          | _ => None
          end
      | "."%char :: s1 => quantify CAny n s1
      | "\"%char :: c :: s1 =>
          match parseEscape c s1 with
          | Some (inl k, s2) => quantify k n s2
          | Some (inr a, s2) => Some (a, n, s2)
          | None => None
          end
      | c :: s1 => if isSpecialA c then None else quantify (CChar c) n s1
      | [] => None
      end
  end.

(** [new RegExp(pattern)]; [None] where JavaScript throws or where the
    pattern leaves the modelled subset. *)
Definition parseRegex (pattern : string) : option Regex :=
  let s := list_ascii_of_string pattern in
  match parseAlt (3 * length s + 3) 0 s with
  | Some (r, _, []) => Some r
  | _ => None
  end.

(** ** The declaration tree (ts-morph)

    A type expression is a type reference kept as its text, or an object
    type literal whose members are property signatures
    [name(?)(: type)]; a node's [getText()] is its printed form, in the
    layout of the generated [index.d.ts] (one member per line). *)

Inductive TypeExpr :=
| TRef (text : string)
| TLiteral (members : list (string * bool * option TypeExpr)).

Definition PropertySignature := (string * bool * option TypeExpr)%type.

Definition catStrings (l : list string) : string := fold_right String.append EmptyString l.

Fixpoint printType (t : TypeExpr) : string :=
  match t with
  | TRef s => s
  | TLiteral ms =>
      "{" +++ catStrings
        (map (fun (p : string * bool * option TypeExpr) =>
                let '(n, o, ty) := p in
                nl +++ "  " +++ n +++
                match ty with
                | Some ty' => (if o then "?: " else ": ") +++ printType ty'
                | None => if o then "?" else EmptyString
                end) ms) +++ nl +++ "}"
  end.

(** [getText()] of a property signature *)
Definition propText (p : PropertySignature) : string :=
  let '(n, o, ty) := p in
  n +++ match ty with
        | Some ty' => (if o then "?: " else ": ") +++ printType ty'
        | None => if o then "?" else EmptyString
        end.

Definition propName (p : PropertySignature) : string := fst (fst p).

(** [getDescendantsOfKind(SyntaxKind.PropertySignature)], in document
    (pre-)order. *)
Fixpoint propDescendants (t : TypeExpr) : list PropertySignature :=
  match t with
  | TRef _ => []
  | TLiteral ms =>
      flat_map (fun (p : string * bool * option TypeExpr) =>
                  let '(n, o, ty) := p in
                  (n, o, ty) :: match ty with
                                | Some ty' => propDescendants ty'
                                | None => []
                                end) ms
  end.

Record TypeAliasDeclaration := mkTypeAlias {
  ta_name : string;
  ta_typeParameters : list string;
  ta_type : TypeExpr
}.

(** An interface member: name and the text of its type (or signature). *)
Record InterfaceDeclaration := mkInterface {
  if_name : string;
  if_properties : list (string * string);
  if_methods : list (string * string)
}.

(** A variable statement: its declarations, each a name and an optional
    type annotation. *)
Definition VariableStatement := list (string * option TypeExpr).

Inductive Statement :=
| SImport (text : string)
| SImportEquals (text : string)
| SExportAssignment (text : string)
| STypeAlias (ta : TypeAliasDeclaration)
| SClass (name : string)
| SFunction (name : string)
| SVariable (v : VariableStatement)
| SInterface (i : InterfaceDeclaration)
| SModule (name : string) (body : list Statement).

Definition SourceFile := list Statement.

(** Structures ([getStructure()]): type expressions are plain text. *)
Record TypeAliasStructure := mkTypeAliasStructure {
  tas_name : string;
  tas_typeParameters : list string;
  tas_type : string
}.

Inductive StatementStructure :=
| OImport (text : string)
| OImportEquals (text : string)
| OExportAssignment (text : string)
| OTypeAlias (ta : TypeAliasStructure)
| OClass (name : string)
| OFunction (name : string)
| OVariable (decls : list (string * option string))
| OInterface (i : InterfaceDeclaration)
| OModule (name : string) (body : list StatementStructure).

Definition typeAliasStructure (ta : TypeAliasDeclaration) : TypeAliasStructure :=
  mkTypeAliasStructure (ta_name ta) (ta_typeParameters ta) (printType (ta_type ta)).

Definition variableStructure (v : VariableStatement) : list (string * option string) :=
  map (fun '(n, ty) => (n, option_map printType ty)) v.

Fixpoint getStructure (s : Statement) : StatementStructure :=
  match s with
  | SImport t => OImport t
  | SImportEquals t => OImportEquals t
  | SExportAssignment t => OExportAssignment t
  | STypeAlias ta => OTypeAlias (typeAliasStructure ta)
  | SClass n => OClass n
  | SFunction n => OFunction n
  | SVariable v => OVariable (variableStructure v)
  | SInterface i => OInterface i
  | SModule n body => OModule n (map getStructure body)
  end.

(** Children of one kind, in document order. *)
Definition getImportDeclarations (sf : list Statement) : list Statement :=
  filter (fun s => match s with SImport _ => true | _ => false end) sf.
Definition getImportEquals (sf : list Statement) : list Statement :=
  filter (fun s => match s with SImportEquals _ => true | _ => false end) sf.
Definition getExportAssignments (sf : list Statement) : list Statement :=
  filter (fun s => match s with SExportAssignment _ => true | _ => false end) sf.
Definition getTypeAliases (sf : list Statement) : list TypeAliasDeclaration :=
  flat_map (fun s => match s with STypeAlias ta => [ta] | _ => [] end) sf.
Definition getClasses (sf : list Statement) : list Statement :=
  filter (fun s => match s with SClass _ => true | _ => false end) sf.
Definition getFunctions (sf : list Statement) : list Statement :=
  filter (fun s => match s with SFunction _ => true | _ => false end) sf.
Definition getVariableStatements (sf : list Statement) : list VariableStatement :=
  flat_map (fun s => match s with SVariable v => [v] | _ => [] end) sf.
Definition getInterfaces (sf : list Statement) : list InterfaceDeclaration :=
  flat_map (fun s => match s with SInterface i => [i] | _ => [] end) sf.
Definition getModules (sf : list Statement) : list Statement :=
  filter (fun s => match s with SModule _ _ => true | _ => false end) sf.

Definition moduleName (s : Statement) : string :=
  match s with SModule n _ => n | _ => EmptyString end.

(** [sf.getModuleOrThrow(name)]: the body of the first namespace so named. *)
Fixpoint getModuleBody (sf : list Statement) (name : string) : option (list Statement) :=
  match sf with
  | [] => None
  | SModule n body :: rest => if String.eqb n name then Some body else getModuleBody rest name
  | _ :: rest => getModuleBody rest name
  end.

(** ** The enhancer generator ([EnhancerGenerator]) *)

(** [DelegateInfo]: delegate models with their direct sub models. *)
Definition DelegateInfo := list (DataModel * list DataModel).

(** The map built at the start of [processClientTypes]. *)
Definition buildDelegateInfo (m : Model) : DelegateInfo :=
  map (fun dm =>
         (dm, filter (fun d => existsb (fun s => refersTo m s dm) (dm_superTypes d))
                     (dataModelsOf m)))
      (filter isDelegateModel (dataModelsOf m)).

(** [getDiscriminatorField]: the field referenced by the first argument of
    [@@delegate], when that argument is a reference that resolves. *)
Definition getDiscriminatorField (dm : DataModel) : option DataModelField :=
  match getAttribute (dm_attributes dm) "@@delegate" with
  | None => None
  | Some a =>
      match attr_args a with
      | x :: _ =>
          match arg_value x with
          | ReferenceExpr t => find (fun f => String.eqb (field_name f) t) (dm_fields dm)
          | _ => None
          end
      | [] => None
      end
  end.

(** The loop [for (const superType of delegate.superTypes)] of
    [getDiscriminatorFieldsRecursively], given the recursive call [rec].
    The array [result] is shared with the recursive call, which appends to
    it and returns it; [result.push(...returned)] then appends the array to
    itself. *)
Fixpoint superTypesLoop (rec : DataModel -> list DataModelField -> option (list DataModelField))
  (m : Model) (sts : list string) (r : list DataModelField) : option (list DataModelField) :=
  match sts with
  | [] => Some r
  | st :: sts' =>
      match resolveDataModel m st with
      | Some sup =>
          match rec sup r with
          | Some r' => superTypesLoop rec m sts' (r' ++ r')
          | None => None
          end
      | None => superTypesLoop rec m sts' r
      end
  end.

(** [getDiscriminatorFieldsRecursively(delegate, result)].  The recursion
    has no bound of its own, so it is run on [fuel]: [None] means the fuel
    ran out before the call returned. *)
Fixpoint getDiscriminatorFieldsRecursively (fuel : nat) (m : Model) (delegate : DataModel)
  (result : list DataModelField) {struct fuel} : option (list DataModelField) :=
  match fuel with
  | 0 => None
  | S f =>
      if isDelegateModel delegate then
        let r1 := match getDiscriminatorField delegate with
                  | Some d => result ++ [d]
                  | None => result
                  end in
        superTypesLoop (getDiscriminatorFieldsRecursively f m) m (dm_superTypes delegate) r1
      else Some result
  end.

(** Fuel given to the walk inside the transformation. *)
Definition walkFuel (m : Model) : nat := S (length (dataModelsOf m)).

(** [findNamedProperty]: the first property-signature descendant so named. *)
Definition findNamedProperty (ta : TypeAliasDeclaration) (name : string)
  : option PropertySignature :=
  find (fun p => String.eqb (propName p) name) (propDescendants (ta_type ta)).

(** [findAuxDecls]: property-signature descendants with the aux prefix. *)
Definition findAuxDecls (ps : list PropertySignature) : list PropertySignature :=
  filter (fun p => startsWith (propName p) DELEGATE_AUX_RELATION_PREFIX) ps.

(** [removeAuxFieldsFromTypeAlias] *)
Definition removeAuxFieldsFromTypeAlias (ta : TypeAliasDeclaration) (source : string) : string :=
  fold_left (fun src d => jsReplace (propText d) src)
    (findAuxDecls (propDescendants (ta_type ta))) source.

(** [removeDiscriminatorFromConcreteInput] *)
Definition removeDiscriminatorFromConcreteInput (m : Model) (info : DelegateInfo)
  (ta : TypeAliasDeclaration) (source : string) : option string :=
  let typeName := ta_name ta in
  let concreteModelNames := flat_map (fun '(_, concretes) => map dm_name concretes) info in
  match parseRegex ("(" +++ String.concat "|" concreteModelNames
                    +++ ")(Unchecked)?(Create|Update).*Input") with
  | None => None
  | Some re =>
      match exec re typeName with
      | None => Some source
      | Some caps =>
          let modelName := match capture caps 1 with Some n => n | None => EmptyString end in
          match find (fun '(_, concretes) =>
                        existsb (fun c => String.eqb (dm_name c) modelName) concretes) info with
          | None => Some source
          | Some (delegateOfConcrete, _) =>
              match getDiscriminatorFieldsRecursively (walkFuel m) m delegateOfConcrete [] with
              | None => None
              | Some discriminators =>
                  Some (fold_left
                          (fun src d =>
                             match findNamedProperty ta (field_name d) with
                             | Some node => jsReplace (propText node) src
                             | None => src
                             end) discriminators source)
              end
          end
      end
  end.

Definition backslash : string := String "\"%char EmptyString.

(** [removeCreateFromDelegateInput]; the pattern text is built exactly as
    the template literal [`\\${names.join('|')}(Unchecked)?(Create|Update).*Input`]. *)
Definition delegateCreateUpdateInputPattern (info : DelegateInfo) : string :=
  backslash +++ String.concat "|" (map (fun '(d, _) => dm_name d) info)
  +++ "(Unchecked)?(Create|Update).*Input".

Definition removeCreateFromDelegateInput (info : DelegateInfo)
  (ta : TypeAliasDeclaration) (source : string) : option string :=
  match parseRegex (delegateCreateUpdateInputPattern info) with
  | None => None
  | Some re =>
      match exec re (ta_name ta) with
      | None => Some source
      | Some _ =>
          let toRemove := filter (fun p => existsb (String.eqb (propName p))
                                             ["create"; "connectOrCreate"; "upsert"])
                                 (propDescendants (ta_type ta)) in
          Some (fold_left (fun src r => jsReplace (propText r) src) toRemove source)
      end
  end.

(** [removeDelegateFieldsFromNestedMutationInput] *)
Definition removeDelegateFieldsFromNestedMutationInput (m : Model)
  (ta : TypeAliasDeclaration) (source : string) : option string :=
  let name := ta_name ta in
  match parseRegex ("(.+)(Create|Update)Without" +++ upperCaseFirst DELEGATE_AUX_RELATION_PREFIX
                    +++ "_(.+)Input") with
  | None => None
  | Some re =>
      match exec re name with
      | None => Some source
      | Some caps =>
          let nameTuple := match capture caps 3 with Some t => t | None => EmptyString end in
          let parts := splitOn "_"%char nameTuple in
          let modelName := nth 0 parts EmptyString in
          let relationFieldName := nth_error parts 1 in
          let source1 :=
            match relationFieldName with
            | Some rf =>
                match findNamedProperty ta rf with
                | Some fieldDef => jsReplace (propText fieldDef) source
                | None => source
                end
            | None => source
            end in
          match find (fun dm => String.eqb (dm_name dm) modelName) (dataModelsOf m) with
          | None => Some source1
          | Some relationModel =>
              let relationField :=
                match relationFieldName with
                | Some rf => find (fun f => String.eqb (field_name f) rf) (dm_fields relationModel)
                | None => None
                end in
              match relationField with
              | None => Some source1
              | Some rfield =>
                  match getAttribute (field_attributes rfield) "@relation" with
                  | None => Some source1
                  | Some relAttr =>
                      let fkFields :=
                        match getAttributeArg relAttr "fields" with
                        | Some (ArrayExpr items) =>
                            (* [(e as ReferenceExpr).target.$refText] throws on other items *)
                            fold_right (fun e acc =>
                                          match e, acc with
                                          | ReferenceExpr t, Some l => Some (t :: l)
                                          | _, _ => None
                                          end) (Some []) items
                        | _ => Some []
                        end in
                      match fkFields with
                      | None => None
                      | Some fks =>
                          Some (fold_left
                                  (fun src fk =>
                                     match findNamedProperty ta fk with
                                     | Some fieldDef => jsReplace (propText fieldDef) src
                                     | None => src
                                     end) fks source1)
                      end
                  end
              end
          end
      end
  end.

(** The member text of one payload alternative. *)
Definition payloadAlternative (discriminatorName : string) (concrete : DataModel) : string :=
  "($" +++ dm_name concrete +++ "Payload<ExtArgs> & { scalars: { " +++ discriminatorName
  +++ ": '" +++ dm_name concrete +++ "' } })".

(** [fixDelegatePayloadType] *)
Definition fixDelegatePayloadType (info : DelegateInfo) (ta : TypeAliasDeclaration)
  (source : string) : string :=
  let typeName := ta_name ta in
  match find (fun '(delegate, _) => String.eqb ("$" +++ dm_name delegate +++ "Payload") typeName)
             info with
  | Some (delegate, concretes) =>
      match getDiscriminatorField delegate with
      | Some discriminatorDecl =>
          String.concat " | " (map (payloadAlternative (field_name discriminatorDecl)) concretes)
      | None => source
      end
  | None => source
  end.

(** [transformTypeAlias]; [None] when one of the steps throws. *)
Definition transformTypeAlias (m : Model) (info : DelegateInfo) (ta : TypeAliasDeclaration)
  : option TypeAliasStructure :=
  let structure := typeAliasStructure ta in
  let s1 := removeAuxFieldsFromTypeAlias ta (tas_type structure) in
  match removeDiscriminatorFromConcreteInput m info ta s1 with
  | None => None
  | Some s2 =>
      match removeCreateFromDelegateInput info ta s2 with
      | None => None
      | Some s3 =>
          match removeDelegateFieldsFromNestedMutationInput m ta s3 with
          | None => None
          | Some s4 =>
              Some (mkTypeAliasStructure (tas_name structure) (tas_typeParameters structure)
                      (fixDelegatePayloadType info ta s4))
          end
      end
  end.

(** [transformInterface] *)
Definition transformInterface (info : DelegateInfo) (iface : InterfaceDeclaration)
  : InterfaceDeclaration :=
  let props := filter (fun p => negb (startsWith (fst p) DELEGATE_AUX_RELATION_PREFIX))
                      (if_properties iface) in
  let methods := filter (fun p => negb (startsWith (fst p) DELEGATE_AUX_RELATION_PREFIX))
                        (if_methods iface) in
  let methods' :=
    if existsb (fun '(delegate, _) => String.eqb (dm_name delegate +++ "Delegate") (if_name iface))
               info
    then filter (fun p => negb (existsb (String.eqb (fst p)) ["create"; "createMany"; "upsert"]))
                methods
    else methods in
  mkInterface (if_name iface) props methods'.

(** [transformVariableStatement] *)
Definition transformVariableStatement (v : VariableStatement) : list (string * option string) :=
  let structure := variableStructure v in
  let auxFields := findAuxDecls (flat_map (fun '(_, ty) =>
                                             match ty with
                                             | Some t => propDescendants t
                                             | None => []
                                             end) v) in
  match auxFields with
  | [] => structure
  | _ =>
      map (fun '(n, ty) =>
             (n, fold_left (fun src f => option_map (jsReplace (propText f)) src) auxFields ty))
          structure
  end.

Fixpoint mapOption {A B} (f : A -> option B) (l : list A) : option (list B) :=
  match l with
  | [] => Some []
  | x :: l' =>
      match f x with
      | None => None
      | Some y => match mapOption f l' with Some ys => Some (y :: ys) | None => None end
      end
  end.

(** [transformPrismaModule]: the new body of namespace [Prisma]. *)
Definition transformPrismaModule (m : Model) (info : DelegateInfo) (moduleBlock : list Statement)
  : option (list StatementStructure) :=
  let copied := map getStructure (getImportEquals moduleBlock)
                ++ map getStructure (getClasses moduleBlock)
                ++ map getStructure (getFunctions moduleBlock)
                ++ map getStructure (getModules moduleBlock) in
  let newVariables := map (fun v => OVariable (transformVariableStatement v))
                          (getVariableStatements moduleBlock) in
  let newInterfaces := map (fun i => OInterface (transformInterface info i))
                           (getInterfaces moduleBlock) in
  match mapOption (transformTypeAlias m info) (getTypeAliases moduleBlock) with
  | None => None
  | Some newTypeAliases => Some (copied ++ newVariables ++ newInterfaces
                                   ++ map OTypeAlias newTypeAliases)
  end.

(** [transformDelegate]: the statements of [index-fixed.d.ts]. *)
Definition transformDelegate (m : Model) (sf : SourceFile) (info : DelegateInfo)
  : option (list StatementStructure) :=
  match getModuleBody sf "Prisma" with
  | None => None
  | Some prismaModule =>
      match transformPrismaModule m info prismaModule with
      | None => None
      | Some newPrismaModule =>
          Some (map getStructure (getImportDeclarations sf)
                ++ map getStructure (getImportEquals sf)
                ++ map getStructure (getExportAssignments sf)
                ++ map (fun ta => OTypeAlias (typeAliasStructure ta)) (getTypeAliases sf)
                ++ map getStructure (getClasses sf)
                ++ map (fun v => OVariable (variableStructure v)) (getVariableStatements sf)
                ++ map getStructure (filter (fun s => negb (String.eqb (moduleName s) "Prisma"))
                                            (getModules sf))
                ++ [OModule "Prisma" newPrismaModule])
      end
  end.

(** [processClientTypes]: the content of [index-fixed.d.ts] built from the
    generated [index.d.ts].  [formatText()] only changes white space and is
    not modelled; the plain copy [replaceWithText(sf.getFullText())] is the
    structure of every statement, in order. *)
Definition processClientTypes (m : Model) (sf : SourceFile) : option (list StatementStructure) :=
  let delegateInfo := buildDelegateInfo m in
  if (0 <? length delegateInfo)%nat then transformDelegate m sf delegateInfo
  else Some (map getStructure sf).

(** Modelled from the spec: [isDefaultWithAuth] (enhancer-utils, not under
    src/) holds of a [@default] attribute whose value uses [auth()]. *)
Fixpoint usesAuth (e : Expression) : bool :=
  match e with
  | InvocationExpr fn args => String.eqb fn "auth" || existsb usesAuth args
  | MemberAccessExpr o _ => usesAuth o
  | ArrayExpr items => existsb usesAuth items
  | ReferenceExpr _ | LiteralExpr _ => false
  end.

Definition isDefaultWithAuth (a : Attribute) : bool :=
  String.eqb (attr_decl a) "@default" && existsb (fun x => usesAuth (arg_value x)) (attr_args a).

(** [hasDelegateModel] *)
Definition hasDelegateModel (m : Model) : bool :=
  let dataModels := getDataModels m in
  existsb (fun dm => isDelegateModel dm &&
                     existsb (fun sub => existsb (fun base => refersTo m base dm) (dm_superTypes sub))
                             dataModels) dataModels.

(** [hasAuthInDefault] *)
Definition hasAuthInDefault (m : Model) : bool :=
  existsb (fun dm => existsb (fun f => existsb isDefaultWithAuth (field_attributes f)) (dm_fields dm))
          (getDataModels m).

(** [needsLogicalClient] *)
Definition needsLogicalClient (m : Model) : bool := hasDelegateModel m || hasAuthInDefault m.

(** ** The generator run: files written, external process calls *)

Inductive FileContent :=
| FText (text : string)
| FDecls (decls : list StatementStructure).

Inductive Error :=
| PluginError (plugin message : string)
| RuntimeError (message : string).

(** The world of one run: the files written so far (latest first), the
    outcomes of the successive [prisma generate] processes ([true]: exit
    code 0; a process beyond the list succeeds), and the declarations of the
    [index.d.ts] that a successful [prisma generate] leaves behind. *)
Record World := mkWorld {
  files : list (string * FileContent);
  execResults : list bool;
  generatedClient : SourceFile
}.

Inductive Result (A : Type) :=
| Ok (a : A)
| Fail (e : Error).
Arguments Ok {A} a.
Arguments Fail {A} e.

Definition M (A : Type) := World -> World * Result A.

Definition ret {A} (a : A) : M A := fun w => (w, Ok a).
Definition bind {A B} (c : M A) (k : A -> M B) : M B :=
  fun w => match c w with
           | (w', Ok a) => k a w'
           | (w', Fail e) => (w', Fail e)
           end.
Definition throw {A} (e : Error) : M A := fun w => (w, Fail e).
(** [try { c } catch { h }] *)
Definition tryCatch {A} (c : M A) (h : Error -> M A) : M A :=
  fun w => match c w with
           | (w', Ok a) => (w', Ok a)
           | (w', Fail e) => h e w'
           end.

Notation "x <- c ;; k" := (bind c (fun x => k)) (at level 61, c at next level, right associativity).
Notation "c ;;; k" := (bind c (fun _ => k)) (at level 61, right associativity).

(** [createSourceFile(path, ..., { overwrite: true })] followed by [save()] *)
Definition writeFile (path : string) (content : FileContent) : M unit :=
  fun w => (mkWorld ((path, content) :: filter (fun e => negb (String.eqb (fst e) path)) (files w))
                    (execResults w) (generatedClient w), Ok tt).

(** [execPackage(cmd)]: runs the next external process; rejects when it fails. *)
Definition execPackage (cmd : string) : M unit :=
  fun w => match execResults w with
           | [] => (w, Ok tt)
           | b :: rest =>
               (mkWorld (files w) rest (generatedClient w),
                if b then Ok tt else Fail (RuntimeError ("Command failed: " +++ cmd)))
           end.

(** [trackPrismaSchemaError] only reports telemetry. *)
Definition trackPrismaSchemaError (file : string) : M unit := ret tt.

Definition readGeneratedClient : M SourceFile := fun w => (w, Ok (generatedClient w)).

Definition pluginName : string := "Prisma Enhancer".

Definition dq : string := String (ascii_of_nat 34) EmptyString.

Definition pathJoin (a b : string) : string := a +++ "/" +++ b.

(** [processClientTypes] with its file effects. *)
Definition processClientTypesM (m : Model) (prismaClientDir : string) : M unit :=
  sf <- readGeneratedClient ;;
  match processClientTypes m sf with
  | Some out => writeFile (pathJoin prismaClientDir "index-fixed.d.ts") (FDecls out)
  | None => throw (RuntimeError "transformation failed")
  end.

(** [generateLogicalPrisma]; the schema text written by
    [PrismaSchemaGenerator] and the DMMF returned are not modelled. *)
Definition generateLogicalPrisma (m : Model) (outDir : string) : M unit :=
  let prismaClientOutDir := ".logical-prisma-client" in
  let logicalPrismaFile := pathJoin outDir "logical.prisma" in
  writeFile logicalPrismaFile (FText EmptyString) ;;;
  let generateCmd := "prisma generate --schema " +++ dq +++ logicalPrismaFile +++ dq
                     +++ " --no-engine" in
  tryCatch (execPackage generateCmd)
    (fun _ =>
       trackPrismaSchemaError logicalPrismaFile ;;;
       tryCatch (execPackage generateCmd) (fun _ => ret tt) ;;;
       throw (PluginError pluginName
                ("Failed to run " +++ dq +++ "prisma generate" +++ dq
                 +++ " on logical schema: " +++ logicalPrismaFile))) ;;;
  processClientTypesM m (pathJoin outDir prismaClientOutDir).

Definition logicalPrismaClientDir : string := "./.logical-prisma-client".

(** [generate]: the re-export module [models.d.ts] and whether a logical
    client (and its DMMF) was produced; [enhance.ts] is only saved when
    [preserveTsFiles] is set and is not modelled. *)
Definition generate (m : Model) (outDir prismaImport : string) : M bool :=
  if needsLogicalClient m then
    generateLogicalPrisma m outDir ;;;
    writeFile (pathJoin outDir "models.d.ts")
      (FText ("export type * from '" +++ logicalPrismaClientDir +++ "/index-fixed';")) ;;;
    ret true
  else
    writeFile (pathJoin outDir "models.d.ts")
      (FText ("export type * from '" +++ prismaImport +++ "';")) ;;;
    ret false.

(** ** Definitions used to state the properties *)

(** The direct subtypes of [dm]: the data models whose [extends] clause
    names it, in declaration order. *)
Definition directSubtypes (m : Model) (dm : DataModel) : list DataModel :=
  filter (fun d => existsb (String.eqb (dm_name dm)) (dm_superTypes d)) (dataModelsOf m).

(** The payload union in the spec's words:
    [($<Subtype>Payload<typeArgs> & { scalars: { <discriminatorName>: '<SubtypeName>' } })]
    joined by [ | ]; the spec writes it with no type arguments. *)
Definition specPayloadUnion (typeArgs discriminatorName : string) (subtypes : list string) : string :=
  String.concat " | "
    (map (fun c => "($" +++ c +++ "Payload" +++ typeArgs +++ " & { scalars: { " +++ discriminatorName
                   +++ ": '" +++ c +++ "' } })") subtypes).

(** The four subtractive rewrites of a type alias, in the order
    [transformTypeAlias] applies them. *)
Definition subtractiveTypeAliasRewrites (m : Model) (info : DelegateInfo)
  (ta : TypeAliasDeclaration) : option string :=
  let s1 := removeAuxFieldsFromTypeAlias ta (printType (ta_type ta)) in
  match removeDiscriminatorFromConcreteInput m info ta s1 with
  | None => None
  | Some s2 =>
      match removeCreateFromDelegateInput info ta s2 with
      | None => None
      | Some s3 => removeDelegateFieldsFromNestedMutationInput m ta s3
      end
  end.


(** A rank on data models that strictly decreases from each delegate model
    to every supertype it names that resolves; such a rank exists exactly
    when the supertype edges the walk follows have no cycle. *)
Definition rankOK (m : Model) (rank : DataModel -> nat) (x : DataModel) : bool :=
  negb (isDelegateModel x)
  || forallb (fun s => match resolveDataModel m s with
                       | Some y => (rank y <? rank x)%nat
                       | None => true
                       end) (dm_superTypes x).

Definition rankDecreases (m : Model) (rank : DataModel -> nat) : bool :=
  forallb (rankOK m rank) (dataModelsOf m).

(** A set of names each naming a delegate model that lists one of the
    set's names among its supertypes: the models of every cycle of
    delegate entities form such a set. *)
Definition delegateCycle (m : Model) (ns : list string) : bool :=
  forallb (fun n => match resolveDataModel m n with
                    | Some x => isDelegateModel x
                                && existsb (fun st => existsb (String.eqb st) ns) (dm_superTypes x)
                    | None => false
                    end) ns.










Fixpoint NoDupb (l : list string) : bool :=
  match l with
  | [] => true
  | x :: l' => negb (existsb (String.eqb x) l') && NoDupb l'
  end.

Definition lookupFile (path : string) (fs : list (string * FileContent)) : option FileContent :=
  match find (fun e => String.eqb (fst e) path) fs with
  | Some (_, c) => Some c
  | None => None
  end.

(** ** Concrete schemas and declarations *)

Definition delegateMarker (discriminator : string) : Attribute :=
  mkAttribute "@@delegate" [mkAttributeArg None (ReferenceExpr discriminator)].

Definition plainField (n : string) : DataModelField := mkDataModelField n [].

Definition strType : option TypeExpr := Some (TRef "string").

(** [Base(delegate, kind)] with concrete subtypes [A] and [B]. *)
Definition BaseAB : DataModel := mkDataModel "Base" [plainField "id"; plainField "kind"] [delegateMarker "kind"] [].
Definition ConcreteA : DataModel := mkDataModel "A" [plainField "id"; plainField "kind"] [] ["Base"].
Definition ConcreteB : DataModel := mkDataModel "B" [plainField "id"; plainField "kind"] [] ["Base"].
Definition schemaAB : Model := [DeclDataModel BaseAB; DeclDataModel ConcreteA; DeclDataModel ConcreteB].

Definition basePayloadAlias : TypeAliasDeclaration :=
  mkTypeAlias "$BasePayload" ["ExtArgs"]
    (TLiteral [("name", false, Some (TRef "'Base'")); ("scalars", false, Some (TRef "{ id: string; kind: string }"))]).

(** [Base(delegate, kind) -> Mid(delegate, type) -> Leaf]. *)
Definition Base2 : DataModel := mkDataModel "Base" [plainField "id"; plainField "kind"] [delegateMarker "kind"] [].
Definition Mid2 : DataModel :=
  mkDataModel "Mid" [plainField "id"; plainField "kind"; plainField "type"] [delegateMarker "type"] ["Base"].
Definition Leaf2 : DataModel :=
  mkDataModel "Leaf" [plainField "id"; plainField "kind"; plainField "type"; plainField "url"] [] ["Mid"].
Definition schemaTwoLevel : Model := [DeclDataModel Base2; DeclDataModel Mid2; DeclDataModel Leaf2].

Definition leafCreateInput : TypeAliasDeclaration :=
  mkTypeAlias "LeafCreateInput" []
    (TLiteral [("id", true, strType); ("kind", false, strType); ("type", false, strType); ("url", false, strType)]).

(** [Asset(delegate, kind)] with a field [subkind] declared before [kind]. *)
Definition AssetSub : DataModel :=
  mkDataModel "Asset" [plainField "id"; plainField "subkind"; plainField "kind"] [delegateMarker "kind"] [].
Definition VideoSub : DataModel :=
  mkDataModel "Video" [plainField "id"; plainField "subkind"; plainField "kind"; plainField "url"] [] ["Asset"].
Definition schemaSubkind : Model := [DeclDataModel AssetSub; DeclDataModel VideoSub].

Definition videoCreateInput : TypeAliasDeclaration :=
  mkTypeAlias "VideoCreateInput" []
    (TLiteral [("id", true, strType); ("subkind", false, strType); ("kind", false, strType); ("url", false, strType)]).

(** The text of [VideoCreateInput] after one pass, read back as a type: the
    member [subkind: string] became [sub]. *)
Definition videoCreateInputOnce : TypeExpr :=
  TLiteral [("id", true, strType); ("sub", false, None); ("kind", false, strType); ("url", false, strType)].

(** A delegate named [Widget] with a subtype, and an owner relation. *)
Definition Widget : DataModel := mkDataModel "Widget" [plainField "id"; plainField "kind"] [delegateMarker "kind"] [].
Definition Gadget : DataModel := mkDataModel "Gadget" [plainField "id"; plainField "kind"] [] ["Widget"].
Definition schemaWidget : Model := [DeclDataModel Widget; DeclDataModel Gadget].

Definition widgetCreateNested : TypeAliasDeclaration :=
  mkTypeAlias "WidgetCreateNestedOneWithoutOwnerInput" []
    (TLiteral [("create", true, Some (TRef "XOR<WidgetCreateWithoutOwnerInput, WidgetUncheckedCreateWithoutOwnerInput>"));
               ("connectOrCreate", true, Some (TRef "WidgetCreateOrConnectWithoutOwnerInput"));
               ("connect", true, Some (TRef "WidgetWhereUniqueInput"))]).

(** Two delegates, [Asset] and [Media], and a [User] owning assets. *)
Definition AssetD : DataModel := mkDataModel "Asset" [plainField "id"; plainField "kind"] [delegateMarker "kind"] [].
Definition VideoD : DataModel := mkDataModel "Video" [plainField "id"; plainField "kind"] [] ["Asset"].
Definition MediaD : DataModel := mkDataModel "Media" [plainField "id"; plainField "kind"] [delegateMarker "kind"] [].
Definition ImageD : DataModel := mkDataModel "Image" [plainField "id"; plainField "kind"] [] ["Media"].
Definition UserD : DataModel := mkDataModel "User" [plainField "id"; plainField "assets"] [] [].
Definition schemaTwoDelegates : Model :=
  [DeclDataModel AssetD; DeclDataModel VideoD; DeclDataModel MediaD; DeclDataModel ImageD; DeclDataModel UserD].

Definition userUpdateNested : TypeAliasDeclaration :=
  mkTypeAlias "UserUpdateOneRequiredWithoutAssetsNestedInput" []
    (TLiteral [("create", true, Some (TRef "UserCreateWithoutAssetsInput"));
               ("connectOrCreate", true, Some (TRef "UserCreateOrConnectWithoutAssetsInput"));
               ("upsert", true, Some (TRef "UserUpsertWithoutAssetsInput"));
               ("connect", true, Some (TRef "UserWhereUniqueInput"))]).

(** Two delegate-marked models extending each other. *)
(** The depth of a model of [schemaTwoLevel] below [Base]. *)
Definition depthTwoLevel (d : DataModel) : nat :=
  if String.eqb (dm_name d) "Leaf" then 2 else if String.eqb (dm_name d) "Mid" then 1 else 0.

Definition Cyc1 : DataModel := mkDataModel "Cyc1" [plainField "k"] [delegateMarker "k"] ["Cyc2"].
Definition Cyc2 : DataModel := mkDataModel "Cyc2" [plainField "k"] [delegateMarker "k"] ["Cyc1"].
Definition schemaCyclic : Model := [DeclDataModel Cyc1; DeclDataModel Cyc2].

(** A delegate-marked model without subtypes, and a field defaulting to
    [auth().id]. *)
Definition authDefault : Attribute :=
  mkAttribute "@default" [mkAttributeArg None (MemberAccessExpr (InvocationExpr "auth" []) "id")].
Definition Post : DataModel :=
  mkDataModel "Post" [plainField "id"; mkDataModelField "ownerId" [authDefault]] [] [].
Definition LoneBase : DataModel :=
  mkDataModel "Lone" [plainField "id"; plainField "kind"] [delegateMarker "kind"] [].
Definition schemaLone : Model := [DeclDataModel LoneBase; DeclDataModel Post].
Definition schemaAuthOnly : Model := [DeclDataModel Post].

Definition lonePayloadAlias : TypeAliasDeclaration :=
  mkTypeAlias "$LonePayload" ["ExtArgs"] (TLiteral [("name", false, Some (TRef "'Lone'"))]).



Definition promiseAlias : TypeAliasDeclaration := mkTypeAlias "PrismaPromise" ["T"] (TRef "Promise<T>").
Definition clientMixed : SourceFile :=
  [SVariable [("dmmf", Some (TRef "any"))]; STypeAlias promiseAlias; SModule "Prisma" []].

Definition clientLone : SourceFile := [SModule "Prisma" [STypeAlias lonePayloadAlias]].

Definition initialWorld (execs : list bool) : World := mkWorld [] execs clientMixed.

(** [s] is [t] with some characters deleted. *)
Inductive subseq : string -> string -> Prop :=
| subseq_nil (t : string) : subseq EmptyString t
| subseq_keep (c : ascii) (s t : string) : subseq s t -> subseq (String c s) (String c t)
| subseq_skip (c : ascii) (s t : string) : subseq s t -> subseq s (String c t).

(** Top-level statement kinds, as the properties of [transformDelegate]
    speak of them. *)
Definition isPrismaModuleS (x : StatementStructure) : bool :=
  match x with OModule n _ => String.eqb n "Prisma" | _ => false end.

Definition isInterfaceOrFunctionS (x : StatementStructure) : bool :=
  match x with OInterface _ | OFunction _ => true | _ => false end.

(** The top-level statements [transformDelegate] copies. *)
Definition copiedTopLevel (s : Statement) : bool :=
  match s with
  | SImport _ | SImportEquals _ | SExportAssignment _ | STypeAlias _ | SClass _ | SVariable _ => true
  | SModule n _ => negb (String.eqb n "Prisma")
  | SFunction _ | SInterface _ => false
  end.

(** The statements of the [Prisma] namespace body that
    [transformPrismaModule] carries over (copied or transformed). *)
Definition keptInModule (s : Statement) : bool :=
  match s with
  | SImport _ | SExportAssignment _ => false
  | _ => true
  end.

Definition typeAliasNamesS (out : list StatementStructure) : list string :=
  flat_map (fun x => match x with OTypeAlias t => [tas_name t] | _ => [] end) out.

(** An action leaves the file at [p] as it found it. *)
Definition keepsFile (p : string) {A} (c : M A) : Prop :=
  forall w, lookupFile p (files (fst (c w))) = lookupFile p (files w).

(** * Properties *)

(** ** Lemmas on strings and lookups *)


Lemma append_assoc_s (a b c : string) : (a +++ b) +++ c = a +++ (b +++ c).
Proof. induction a as [|x a IH]; simpl; [reflexivity | now rewrite IH]. Qed.

Lemma length_append_s (a b : string) : String.length (a +++ b) = String.length a + String.length b.
Proof. induction a as [|x a IH]; simpl; [reflexivity | now rewrite IH]. Qed.

Lemma append_cancel_r (a b t : string) : a +++ t = b +++ t -> a = b.
Proof.
  revert b. induction a as [|x a IH]; intros [|y b] H; simpl in H.
  - reflexivity.
  - apply (f_equal String.length) in H. simpl in H. rewrite length_append_s in H. lia.
  - apply (f_equal String.length) in H. simpl in H. rewrite length_append_s in H. lia.
  - injection H as -> H. now rewrite (IH b H).
Qed.

Lemma suffix_eqb (x y t : string) : String.eqb (x +++ t) (y +++ t) = String.eqb x y.
Proof.
  destruct (String.eqb_spec x y) as [->|Hne].
  - apply String.eqb_refl.
  - apply String.eqb_neq. intro H. apply Hne, (append_cancel_r _ _ _ H).
Qed.

Lemma NoDupb_spec (l : list string) : NoDupb l = true -> NoDup l.
Proof.
  induction l as [|x l IH]; simpl; intro H; constructor.
  - apply andb_true_iff in H as [H _]. apply negb_true_iff in H.
    intro Hin. assert (existsb (String.eqb x) l = true) as E.
    { apply existsb_exists. exists x. split; [exact Hin | apply String.eqb_refl]. }
    congruence.
  - apply andb_true_iff in H as [_ H]. exact (IH H).
Qed.

(** A reference naming a model of the schema resolves to it. *)
Lemma refersTo_name (m : Model) (s : string) (dm : DataModel) :
  In dm (dataModelsOf m) -> refersTo m s dm = String.eqb s (dm_name dm).
Proof.
  intro Hin. unfold refersTo, resolveDataModel.
  destruct (find (fun d => String.eqb (dm_name d) s) (dataModelsOf m)) as [d|] eqn:E.
  - apply find_some in E as [_ E]. apply String.eqb_eq in E. now rewrite E.
  - symmetry. rewrite String.eqb_sym. apply (find_none _ _ E _ Hin).
Qed.

Lemma delegate_subtypes (m : Model) (dm : DataModel) :
  In dm (dataModelsOf m) ->
  filter (fun d => existsb (fun s => refersTo m s dm) (dm_superTypes d)) (dataModelsOf m)
  = directSubtypes m dm.
Proof.
  intro Hin. unfold directSubtypes. apply filter_ext. intro d.
  induction (dm_superTypes d) as [|s sts IH]; simpl; [reflexivity|].
  rewrite (refersTo_name m s dm Hin), IH. now rewrite String.eqb_sym.
Qed.

Lemma find_payload_entry (dms : list DataModel) (g : DataModel -> list DataModel) (dm : DataModel) :
  NoDup (map dm_name dms) -> In dm dms -> isDelegateModel dm = true ->
  find (fun '(delegate, _) => String.eqb ("$" +++ dm_name delegate +++ "Payload")
                                         ("$" +++ dm_name dm +++ "Payload"))
       (map (fun d => (d, g d)) (filter isDelegateModel dms)) = Some (dm, g dm).
Proof.
  induction dms as [|a dms IH]; simpl; intros Hnd Hin Hdel; [contradiction|].
  inversion Hnd as [|x l Hnotin Hnd' Heq]; subst.
  destruct Hin as [->|Hin].
  - rewrite Hdel. simpl. now rewrite String.eqb_refl.
  - assert (Hne : dm_name a <> dm_name dm).
    { intro E. apply Hnotin. rewrite E. now apply in_map. }
    destruct (isDelegateModel a); simpl; [|now apply IH].
    rewrite suffix_eqb. apply String.eqb_neq in Hne. rewrite Hne. now apply IH.
Qed.

(** The entry [fixDelegatePayloadType] finds for [$<dm>Payload]. *)
Lemma payload_entry (m : Model) (dm : DataModel) (ta : TypeAliasDeclaration) :
  NoDup (map dm_name (dataModelsOf m)) -> In dm (dataModelsOf m) -> isDelegateModel dm = true ->
  ta_name ta = "$" +++ dm_name dm +++ "Payload" ->
  find (fun '(delegate, _) => String.eqb ("$" +++ dm_name delegate +++ "Payload") (ta_name ta))
       (buildDelegateInfo m) = Some (dm, directSubtypes m dm).
Proof.
  intros Hnd Hin Hdel Hname. rewrite Hname. unfold buildDelegateInfo.
  rewrite (find_payload_entry _ (fun d => filter (fun x => existsb (fun s => refersTo m s d)
                                                                   (dm_superTypes x)) (dataModelsOf m))
                              dm Hnd Hin Hdel).
  now rewrite delegate_subtypes.
Qed.

Lemma payloadAlternatives_spec (d : string) (subs : list DataModel) :
  String.concat " | " (map (payloadAlternative d) subs)
  = specPayloadUnion "<ExtArgs>" d (map dm_name subs).
Proof. unfold specPayloadUnion. now rewrite map_map. Qed.

(** [transformTypeAlias] ends with [fixDelegatePayloadType]. *)
Lemma transformTypeAlias_last (m : Model) (info : DelegateInfo) (ta : TypeAliasDeclaration)
  (out : TypeAliasStructure) :
  transformTypeAlias m info ta = Some out ->
  exists s4, tas_type out = fixDelegatePayloadType info ta s4.
Proof.
  unfold transformTypeAlias.
  destruct (removeDiscriminatorFromConcreteInput _ _ _ _); [|discriminate].
  destruct (removeCreateFromDelegateInput _ _ _); [|discriminate].
  destruct (removeDelegateFieldsFromNestedMutationInput _ _ _) as [s4|]; [|discriminate].
  intro H. injection H as <-. now exists s4.
Qed.

(** ** Payload union synthesis *)

(** C1 (counterexample): for [Base] with concrete subtypes [[A; B]] and
    discriminator [kind], the rewritten [$BasePayload] is not the union
    written without type arguments: each alternative is
    [$<Subtype>Payload<ExtArgs>]. *)
Lemma payload_union_counterexample :
  fixDelegatePayloadType (buildDelegateInfo schemaAB) basePayloadAlias
    (printType (ta_type basePayloadAlias))
  <> specPayloadUnion EmptyString "kind" ["A"; "B"].
Proof. apply String.eqb_neq. vm_compute. reflexivity. Qed.

(** C1 (amended): for a delegate-marked entity of a schema with unique
    names, rewrite (f) turns the type of [$<Entity>Payload] into the union,
    over its direct subtypes in declaration order, of
    [($<Subtype>Payload<ExtArgs> & { scalars: { <discriminator>: '<Subtype>' } })]
    when the discriminator resolves (so the transformed alias has exactly
    that type), and leaves the expression it receives unchanged when it does
    not. *)
Theorem payload_union_synthesis (m : Model) (dm : DataModel) (ta : TypeAliasDeclaration)
  (Huniq : NoDup (map dm_name (dataModelsOf m))) (Hin : In dm (dataModelsOf m))
  (Hdel : isDelegateModel dm = true) (Hname : ta_name ta = "$" +++ dm_name dm +++ "Payload") :
  (forall f, getDiscriminatorField dm = Some f ->
     (forall src, fixDelegatePayloadType (buildDelegateInfo m) ta src
                  = specPayloadUnion "<ExtArgs>" (field_name f) (map dm_name (directSubtypes m dm)))
     /\ (forall out, transformTypeAlias m (buildDelegateInfo m) ta = Some out ->
           tas_type out = specPayloadUnion "<ExtArgs>" (field_name f) (map dm_name (directSubtypes m dm))))
  /\ (getDiscriminatorField dm = None ->
      forall src, fixDelegatePayloadType (buildDelegateInfo m) ta src = src).
Proof.
  pose proof (payload_entry m dm ta Huniq Hin Hdel Hname) as Hentry.
  assert (Hfix : forall src, fixDelegatePayloadType (buildDelegateInfo m) ta src
                 = match getDiscriminatorField dm with
                   | Some d => String.concat " | " (map (payloadAlternative (field_name d))
                                                         (directSubtypes m dm))
                   | None => src
                   end).
  { intro src. unfold fixDelegatePayloadType. now rewrite Hentry. }
  split.
  - intros f Hf. split.
    + intro src. rewrite Hfix, Hf. apply payloadAlternatives_spec.
    + intros out Hout. destruct (transformTypeAlias_last _ _ _ _ Hout) as [s4 ->].
      rewrite Hfix, Hf. apply payloadAlternatives_spec.
  - intros Hnone src. now rewrite Hfix, Hnone.
Qed.

Lemma payload_union_synthesis_witness :
  NoDup (map dm_name (dataModelsOf schemaAB)) /\ In BaseAB (dataModelsOf schemaAB)
  /\ isDelegateModel BaseAB = true
  /\ ta_name basePayloadAlias = "$" +++ dm_name BaseAB +++ "Payload"
  /\ fixDelegatePayloadType (buildDelegateInfo schemaAB) basePayloadAlias EmptyString
     = specPayloadUnion "<ExtArgs>" "kind" ["A"; "B"].
Proof.
  assert (Hnd : NoDup (map dm_name (dataModelsOf schemaAB))) by (apply NoDupb_spec; reflexivity).
  assert (Hin : In BaseAB (dataModelsOf schemaAB)) by (simpl; auto).
  split; [exact Hnd|]. split; [exact Hin|]. split; [reflexivity|]. split; [reflexivity|].
  destruct (payload_union_synthesis schemaAB BaseAB basePayloadAlias Hnd Hin eq_refl eq_refl)
    as [H _].
  exact (proj1 (H (plainField "kind") eq_refl) EmptyString).
Defined.

(** C10: a delegate-marked entity with no subtype gets an entry
    [(entity, [])] in the hierarchy index; and when model names are unique
    and its discriminator resolves, its [$<Entity>Payload] alias is
    rewritten to the union of zero alternatives, the empty type
    expression. *)
Theorem lone_delegate_payload_empty (m : Model) (dm : DataModel) (ta : TypeAliasDeclaration)
  (Hin : In dm (dataModelsOf m)) (Hdel : isDelegateModel dm = true)
  (Hnosub : directSubtypes m dm = []) :
  In (dm, []) (buildDelegateInfo m)
  /\ (NoDup (map dm_name (dataModelsOf m)) ->
      forall f, getDiscriminatorField dm = Some f ->
      ta_name ta = "$" +++ dm_name dm +++ "Payload" ->
      (forall src, fixDelegatePayloadType (buildDelegateInfo m) ta src = EmptyString)
      /\ (forall out, transformTypeAlias m (buildDelegateInfo m) ta = Some out ->
                      tas_type out = EmptyString)).
Proof.
  split.
  - unfold buildDelegateInfo. rewrite <- Hnosub, <- (delegate_subtypes m dm Hin).
    apply (in_map (fun dm0 => (dm0, filter (fun d => existsb (fun s => refersTo m s dm0)
                                                             (dm_superTypes d)) (dataModelsOf m)))).
    apply filter_In. split; [exact Hin | exact Hdel].
  - intros Huniq f Hdisc Hname.
    pose proof (payload_entry m dm ta Huniq Hin Hdel Hname) as Hentry.
    rewrite Hnosub in Hentry.
    assert (Hfix : forall src, fixDelegatePayloadType (buildDelegateInfo m) ta src = EmptyString).
    { intro src. unfold fixDelegatePayloadType. now rewrite Hentry, Hdisc. }
    split; [exact Hfix|].
    intros out Hout. destruct (transformTypeAlias_last _ _ _ _ Hout) as [s4 ->]. apply Hfix.
Qed.

(** The pass is reachable on [schemaLone]: the [auth()] default asks for the
    logical client although no entity has a subtype. *)
Lemma lone_delegate_payload_empty_witness :
  needsLogicalClient schemaLone = true /\ hasDelegateModel schemaLone = false
  /\ NoDup (map dm_name (dataModelsOf schemaLone)) /\ In LoneBase (dataModelsOf schemaLone)
  /\ directSubtypes schemaLone LoneBase = []
  /\ In (LoneBase, []) (buildDelegateInfo schemaLone)
  /\ tas_type (mkTypeAliasStructure "$LonePayload" ["ExtArgs"] EmptyString) = EmptyString
  /\ transformTypeAlias schemaLone (buildDelegateInfo schemaLone) lonePayloadAlias
     = Some (mkTypeAliasStructure "$LonePayload" ["ExtArgs"] EmptyString).
Proof.
  assert (Hnd : NoDup (map dm_name (dataModelsOf schemaLone))) by (apply NoDupb_spec; reflexivity).
  assert (Hin : In LoneBase (dataModelsOf schemaLone)) by (simpl; auto).
  assert (Htr : transformTypeAlias schemaLone (buildDelegateInfo schemaLone) lonePayloadAlias
                = Some (mkTypeAliasStructure "$LonePayload" ["ExtArgs"] EmptyString))
    by (vm_compute; reflexivity).
  destruct (lone_delegate_payload_empty schemaLone LoneBase lonePayloadAlias Hin eq_refl eq_refl)
    as [Hentry Hpay].
  destruct (Hpay Hnd (plainField "kind") eq_refl eq_refl) as [_ Hout].
  split; [reflexivity|]. split; [reflexivity|]. split; [exact Hnd|]. split; [exact Hin|].
  split; [reflexivity|]. split; [exact Hentry|]. split; [exact (Hout _ Htr)|].
  exact Htr.
Defined.

(** ** Discriminator exclusion *)

(** The two-level hierarchy [Base -> Mid -> Leaf]: the discriminator chain
    of [Mid] is [type, kind, type, kind] (the shared array is appended to
    itself), and [LeafCreateInput] loses both [kind] and [type]. *)
Lemma two_level_leaf_create_input :
  getDiscriminatorFieldsRecursively (walkFuel schemaTwoLevel) schemaTwoLevel Mid2 []
  = Some [plainField "type"; plainField "kind"; plainField "type"; plainField "kind"]
  /\ transformTypeAlias schemaTwoLevel (buildDelegateInfo schemaTwoLevel) leafCreateInput
     = Some (mkTypeAliasStructure "LeafCreateInput" []
               ("{" +++ nl +++ "  id?: string" +++ nl +++ "  " +++ nl +++ "  " +++ nl
                +++ "  url: string" +++ nl +++ "}")).
Proof. split; vm_compute; reflexivity. Qed.

(** C2 (code_bug): with a field [subkind] declared before the discriminator
    [kind], the text [kind: string] of the discriminator's node is deleted
    where it first occurs, inside [subkind: string]; the transformed
    [VideoCreateInput] still has the member [kind: string]. *)
Theorem discriminator_text_collision :
  transformTypeAlias schemaSubkind (buildDelegateInfo schemaSubkind) videoCreateInput
  = Some (mkTypeAliasStructure "VideoCreateInput" [] (printType videoCreateInputOnce))
  /\ In ("kind", false, strType) (propDescendants videoCreateInputOnce).
Proof. split; [vm_compute; reflexivity | simpl; tauto]. Qed.

(** ** Capability stripping *)

(** The [<Delegate>Delegate] interface loses [create], [createMany] and
    [upsert]. *)
Lemma transformInterface_delegate_methods (info : DelegateInfo) (iface : InterfaceDeclaration)
  (dm : DataModel) (subs : list DataModel) :
  In (dm, subs) info -> if_name iface = dm_name dm +++ "Delegate" ->
  forall p, In p (if_methods (transformInterface info iface)) ->
  ~ In (fst p) ["create"; "createMany"; "upsert"].
Proof.
  intros Hin Hname p Hp. unfold transformInterface in Hp. simpl in Hp.
  assert (Hex : existsb (fun '(delegate, _) => String.eqb (dm_name delegate +++ "Delegate")
                                                          (if_name iface)) info = true).
  { apply existsb_exists. exists (dm, subs). split; [exact Hin|].
    rewrite Hname. apply String.eqb_refl. }
  rewrite Hex in Hp. apply filter_In in Hp as [_ Hp]. apply negb_true_iff in Hp.
  destruct p as [pn pt]; simpl in Hp |- *.
  intros [<-|[<-|[<-|[]]]]; vm_compute in Hp; discriminate.
Qed.

(** C3 (code_bug): the pattern [\<names>(Unchecked)?(Create|Update).*Input]
    has no group around the names.  For a delegate named [Widget] the
    leading [\W] is the class of non-word characters, so
    [WidgetCreateNestedOneWithoutOwnerInput] keeps [create] and
    [connectOrCreate]; with two delegates [Asset] and [Media] the first
    alternative is a bare [Asset], so the non-matching
    [UserUpdateOneRequiredWithoutAssetsNestedInput] loses [create],
    [connectOrCreate] and [upsert]. *)
Theorem delegate_input_pattern_slip :
  transformTypeAlias schemaWidget (buildDelegateInfo schemaWidget) widgetCreateNested
  = Some (typeAliasStructure widgetCreateNested)
  /\ delegateCreateUpdateInputPattern (buildDelegateInfo schemaTwoDelegates)
     = backslash +++ "Asset|Media(Unchecked)?(Create|Update).*Input"
  /\ transformTypeAlias schemaTwoDelegates (buildDelegateInfo schemaTwoDelegates) userUpdateNested
     = Some (mkTypeAliasStructure "UserUpdateOneRequiredWithoutAssetsNestedInput" []
               ("{" +++ nl +++ "  " +++ nl +++ "  " +++ nl +++ "  " +++ nl
                +++ "  connect?: UserWhereUniqueInput" +++ nl +++ "}")).
Proof. split; [|split]; vm_compute; reflexivity. Qed.

(** ** Idempotence of the subtractive rewrites *)

(** C9 (code_bug): one pass over [VideoCreateInput] of [schemaSubkind]
    yields the text of [videoCreateInputOnce]; a second pass over that
    declaration deletes [kind: string] and changes the text again. *)
Theorem subtractive_rewrites_rerun_changes :
  subtractiveTypeAliasRewrites schemaSubkind (buildDelegateInfo schemaSubkind) videoCreateInput
  = Some (printType videoCreateInputOnce)
  /\ subtractiveTypeAliasRewrites schemaSubkind (buildDelegateInfo schemaSubkind)
       (mkTypeAlias "VideoCreateInput" [] videoCreateInputOnce)
     = Some ("{" +++ nl +++ "  id?: string" +++ nl +++ "  sub" +++ nl +++ "  " +++ nl
             +++ "  url: string" +++ nl +++ "}")
  /\ printType videoCreateInputOnce
     <> "{" +++ nl +++ "  id?: string" +++ nl +++ "  sub" +++ nl +++ "  " +++ nl
        +++ "  url: string" +++ nl +++ "}".
Proof.
  split; [|split]; [vm_compute; reflexivity | vm_compute; reflexivity |].
  apply String.eqb_neq. vm_compute. reflexivity.
Qed.

(** ** Identity law *)

(** C5 (code_bug): [Lone] carries the delegate marker but no model extends
    it, so [schemaLone] has no delegate entity in the sense of
    [hasDelegateModel]; the hierarchy index still has an entry for it and
    [processClientTypes] takes the transforming path: [$LonePayload] is
    rewritten to the empty text, and in [clientMixed] the type alias is moved
    before the variable statement.  Neither output is a copy of its input. *)
Theorem lone_marker_not_identity :
  hasDelegateModel schemaLone = false
  /\ processClientTypes schemaLone clientLone
     = Some [OModule "Prisma" [OTypeAlias (mkTypeAliasStructure "$LonePayload" ["ExtArgs"] EmptyString)]]
  /\ processClientTypes schemaLone clientLone <> Some (map getStructure clientLone)
  /\ processClientTypes schemaLone clientMixed
     = Some [OTypeAlias (typeAliasStructure promiseAlias);
             OVariable [("dmmf", Some "any")]; OModule "Prisma" []]
  /\ processClientTypes schemaLone clientMixed <> Some (map getStructure clientMixed).
Proof.
  split; [vm_compute; reflexivity|].
  split; [vm_compute; reflexivity|].
  split; [vm_compute; congruence|].
  split; [vm_compute; reflexivity|].
  vm_compute; congruence.
Qed.

(** ** Aux-field stripping *)

Lemma prefix_empty (s : string) : String.prefix EmptyString s = true.
Proof. destruct s; reflexivity. Qed.

Lemma prefix_app_self (pat r : string) : String.prefix pat (pat +++ r) = true.
Proof.
  induction pat as [|c pat IH]; simpl; [apply prefix_empty|].
  destruct (ascii_dec c c); [exact IH | congruence].
Qed.


Lemma prefix_app_inv (p s : string) : String.prefix p s = true -> exists r, s = p +++ r.
Proof.
  revert s; induction p as [|c p IH]; intros s H; [exists s; reflexivity|].
  destruct s as [|c' s]; simpl in H; [discriminate|].
  destruct (ascii_dec c c') as [<-|]; [|discriminate].
  destruct (IH s H) as [r ->]. exists r. reflexivity.
Qed.

Lemma prefix_trans (p q s : string) :
  String.prefix p q = true -> String.prefix q s = true -> String.prefix p s = true.
Proof.
  intros H1 H2. destruct (prefix_app_inv _ _ H1) as [r1 ->].
  destruct (prefix_app_inv _ _ H2) as [r2 ->]. rewrite append_assoc_s. apply prefix_app_self.
Qed.

Lemma includes_cons (s p : string) (c : ascii) :
  includes (String c s) p = String.prefix p (String c s) || includes s p.
Proof. reflexivity. Qed.

Lemma includes_prefix_mono (p q s : string) :
  String.prefix p q = true -> includes s q = true -> includes s p = true.
Proof.
  intros Hpq. induction s as [|c s IH]; intros H.
  - change (includes EmptyString q) with (String.prefix q EmptyString || false) in H.
    change (includes EmptyString p) with (String.prefix p EmptyString || false).
    rewrite orb_false_r in H |- *. exact (prefix_trans _ _ _ Hpq H).
  - rewrite includes_cons in H |- *. apply orb_true_iff in H as [H|H].
    + rewrite (prefix_trans _ _ _ Hpq H). reflexivity.
    + rewrite (IH H). apply orb_true_r.
Qed.

Lemma prefix_app_nl (pat a b : string) :
  includes pat nl = false ->
  String.prefix pat (a +++ String (ascii_of_nat 10) b) = true -> String.prefix pat a = true.
Proof.
  revert a; induction pat as [|c pat IH]; intros a Hnl H; [apply prefix_empty|].
  rewrite includes_cons in Hnl. apply orb_false_iff in Hnl as [Hc Hnl].
  destruct a as [|c' a]; simpl in H |- *.
  - destruct (ascii_dec c (ascii_of_nat 10)) as [->|]; [|discriminate].
    assert (String.prefix nl (String (ascii_of_nat 10) pat) = true) by (destruct pat; reflexivity).
    congruence.
  - destruct (ascii_dec c c'); [|discriminate]. exact (IH a Hnl H).
Qed.

Lemma jsReplace_skip_char (pat : string) (c : ascii) (s : string) :
  String.prefix pat (String c s) = false -> jsReplace pat (String c s) = String c (jsReplace pat s).
Proof.
  intros H.
  change (jsReplace pat (String c s))
    with (if String.prefix pat (String c s) then dropS (String.length pat) (String c s)
          else String c (jsReplace pat s)).
  rewrite H. reflexivity.
Qed.



(** Text before a line break that does not contain a one-line pattern is
    passed over. *)
Lemma jsReplace_skip (pat a b : string) :
  includes pat nl = false -> includes a pat = false ->
  jsReplace pat (a +++ String (ascii_of_nat 10) b)
  = a +++ jsReplace pat (String (ascii_of_nat 10) b).
Proof.
  intros Hnl. induction a as [|c a IH]; intros Ha; [reflexivity|].
  rewrite includes_cons in Ha. apply orb_false_iff in Ha as [Hp Ha].
  simpl (String c a +++ _). rewrite jsReplace_skip_char.
  - rewrite (IH Ha). reflexivity.
  - destruct (String.prefix pat (String c (a +++ String (ascii_of_nat 10) b))) eqn:E;
      [|reflexivity].
    rewrite <- Hp. symmetry. exact (prefix_app_nl pat (String c a) b Hnl E).
Qed.




Lemma fold_option_map (fs : list PropertySignature) (x : string) :
  fold_left (fun src f => option_map (jsReplace (propText f)) src) fs (Some x)
  = Some (fold_left (fun src f => jsReplace (propText f) src) fs x).
Proof. revert x; induction fs as [|f fs IH]; intros x; simpl; [reflexivity | apply IH]. Qed.



Lemma includes_iff (s p : string) : includes s p = true <-> exists x y, s = x +++ p +++ y.
Proof.
  split.
  - induction s as [|c s IH]; intros H.
    + change (includes EmptyString p) with (String.prefix p EmptyString || false) in H.
      rewrite orb_false_r in H. destruct (prefix_app_inv _ _ H) as [r Hr].
      exists EmptyString, r. exact Hr.
    + rewrite includes_cons in H. apply orb_true_iff in H as [H|H].
      * destruct (prefix_app_inv _ _ H) as [r Hr]. exists EmptyString, r. exact Hr.
      * destruct (IH H) as [x [y ->]]. exists (String c x), y. reflexivity.
  - intros [x [y ->]]. induction x as [|c x IH].
    + assert (Hp := prefix_app_self p y). change (EmptyString +++ p +++ y) with (p +++ y).
      destruct (p +++ y) as [|c s];
        [change (includes EmptyString p) with (String.prefix p EmptyString || false)
        | rewrite includes_cons]; rewrite Hp; reflexivity.
    + change (String c x +++ p +++ y) with (String c (x +++ p +++ y)).
      rewrite includes_cons, IH. apply orb_true_r.
Qed.




Lemma includes_trans (a b c : string) : includes a b = true -> includes b c = true -> includes a c = true.
Proof.
  rewrite !includes_iff. intros [x [y ->]] [u [v ->]].
  exists (x +++ u), (v +++ y). now rewrite !append_assoc_s.
Qed.




























(** ** Logical-client path *)

Lemma lookupFile_writeFile (path : string) (c : FileContent) (w : World) :
  lookupFile path (files (fst (writeFile path c w))) = Some c.
Proof. simpl. unfold lookupFile. simpl. rewrite String.eqb_refl. reflexivity. Qed.

(** C6 (counterexample): [schemaAuthOnly] has no delegate model, yet a run
    on it takes the logical path and [models.d.ts] points at
    [index-fixed]. *)
Theorem auth_default_takes_logical_path :
  hasDelegateModel schemaAuthOnly = false
  /\ snd (generate schemaAuthOnly "out" "@prisma/client" (initialWorld [])) = Ok true
  /\ lookupFile "out/models.d.ts"
       (files (fst (generate schemaAuthOnly "out" "@prisma/client" (initialWorld []))))
     = Some (FText "export type * from './.logical-prisma-client/index-fixed';").
Proof. repeat split; vm_compute; reflexivity. Qed.

(** C6 (amended): a run that succeeds took the logical path exactly when
    [needsLogicalClient] holds (a delegate model with a subtype, or an
    [auth()] default), and [models.d.ts] then re-exports [index-fixed];
    otherwise it re-exports the original client. *)
Theorem logical_path_iff_needsLogicalClient (m : Model) (outDir prismaImport : string)
  (w w' : World) (r : bool) :
  generate m outDir prismaImport w = (w', Ok r) ->
  r = needsLogicalClient m
  /\ lookupFile (pathJoin outDir "models.d.ts") (files w')
     = Some (FText (if needsLogicalClient m
                    then "export type * from '" +++ logicalPrismaClientDir +++ "/index-fixed';"
                    else "export type * from '" +++ prismaImport +++ "';")).
Proof.
  unfold generate. destruct (needsLogicalClient m).
  - unfold bind at 1. destruct (generateLogicalPrisma m outDir w) as [w1 [u|e]]; [|discriminate].
    unfold bind, ret. intros H. injection H as <- <-. split; [reflexivity|].
    apply lookupFile_writeFile.
  - unfold bind, ret. intros H. injection H as <- <-. split; [reflexivity|].
    apply lookupFile_writeFile.
Qed.

Lemma logical_path_iff_needsLogicalClient_witness :
  needsLogicalClient schemaAB = true
  /\ lookupFile (pathJoin "out" "models.d.ts")
       (files (fst (generate schemaAB "out" "@prisma/client" (initialWorld []))))
     = Some (FText ("export type * from '" +++ logicalPrismaClientDir +++ "/index-fixed';")).
Proof.
  split; [vm_compute; reflexivity|].
  apply (logical_path_iff_needsLogicalClient schemaAB "out" "@prisma/client" (initialWorld [])
           (fst (generate schemaAB "out" "@prisma/client" (initialWorld []))) true).
  vm_compute. reflexivity.
Defined.

(** ** Termination of the discriminator-chain walk *)

Lemma superTypesLoop_some (rec : DataModel -> list DataModelField -> option (list DataModelField))
  (m : Model) (sts : list string) :
  (forall st sup, In st sts -> resolveDataModel m st = Some sup ->
                  forall r, exists r', rec sup r = Some r') ->
  forall r, exists r', superTypesLoop rec m sts r = Some r'.
Proof.
  induction sts as [|st sts IH]; intros Hrec r; simpl; [eauto|].
  destruct (resolveDataModel m st) as [sup|] eqn:E.
  - destruct (Hrec st sup (or_introl eq_refl) E r) as [r' ->].
    apply IH. intros; eapply Hrec; [right|]; eassumption.
  - apply IH. intros; eapply Hrec; [right|]; eassumption.
Qed.

Lemma resolveDataModel_in (m : Model) (s : string) (y : DataModel) :
  resolveDataModel m s = Some y -> In y (dataModelsOf m).
Proof. unfold resolveDataModel. apply find_some. Qed.

Lemma superTypesLoop_none (rec : DataModel -> list DataModelField -> option (list DataModelField))
  (m : Model) (st : string) (sts : list string) (sup : DataModel) (r : list DataModelField) :
  resolveDataModel m st = Some sup -> rec sup r = None ->
  superTypesLoop rec m (st :: sts) r = None.
Proof. intros E H. simpl. rewrite E, H. reflexivity. Qed.

Lemma superTypesLoop_none_in (rec : DataModel -> list DataModelField -> option (list DataModelField))
  (m : Model) (st : string) (sup : DataModel) :
  resolveDataModel m st = Some sup -> (forall r, rec sup r = None) ->
  forall sts r, In st sts -> superTypesLoop rec m sts r = None.
Proof.
  intros E H sts. induction sts as [|st' sts IH]; intros r Hin; [destruct Hin|].
  destruct Hin as [<-|Hin]; [apply superTypesLoop_none with sup; [exact E | apply H]|].
  simpl. destruct (resolveDataModel m st') as [sup'|]; [|apply IH; exact Hin].
  destruct (rec sup' r); [apply IH; exact Hin | reflexivity].
Qed.

(** From a model of a delegate cycle the walk never returns. *)
Lemma delegateCycle_walk_none (m : Model) (ns : list string) :
  delegateCycle m ns = true ->
  forall fuel n x r, In n ns -> resolveDataModel m n = Some x ->
  getDiscriminatorFieldsRecursively fuel m x r = None.
Proof.
  intros Hc fuel. unfold delegateCycle in Hc. rewrite forallb_forall in Hc.
  induction fuel as [|f IH]; intros n x r Hn Ex; [reflexivity|].
  pose proof (Hc n Hn) as Hx. rewrite Ex in Hx. apply andb_true_iff in Hx as [Hdel Hsts].
  apply existsb_exists in Hsts as [st [Hst Hstn]].
  apply existsb_exists in Hstn as [n' [Hn' En']]. apply String.eqb_eq in En'. subst n'.
  pose proof (Hc st Hn') as Hy.
  destruct (resolveDataModel m st) as [y|] eqn:Ey; [|discriminate].
  cbn [getDiscriminatorFieldsRecursively]. rewrite Hdel.
  apply (superTypesLoop_none_in _ m st y Ey); [|exact Hst].
  intros r'. exact (IH st y r' Hn' Ey).
Qed.

(** On [schemaCyclic] the walk from either model calls itself again on the
    other one, whatever the fuel. *)
Lemma cyclic_walk_none (fuel : nat) :
  forall r, getDiscriminatorFieldsRecursively fuel schemaCyclic Cyc1 r = None
            /\ getDiscriminatorFieldsRecursively fuel schemaCyclic Cyc2 r = None.
Proof.
  induction fuel as [|f IH]; intros r; [split; reflexivity|].
  split; cbn [getDiscriminatorFieldsRecursively].
  - change (isDelegateModel Cyc1) with true. cbv iota zeta.
    apply (superTypesLoop_none _ _ _ _ Cyc2); [reflexivity | apply IH].
  - change (isDelegateModel Cyc2) with true. cbv iota zeta.
    apply (superTypesLoop_none _ _ _ _ Cyc1); [reflexivity | apply IH].
Qed.

(** C7 (counterexample): [Cyc1] and [Cyc2] are delegate models naming each
    other as supertype; the walk from [Cyc1] has not returned after 1000
    nested calls (by [cyclic_walk_none], it never does): there is no visited
    set. *)
Theorem cyclic_walk_diverges :
  getDiscriminatorFieldsRecursively 1000 schemaCyclic Cyc1 [] = None.
Proof. apply cyclic_walk_none. Qed.

(** C7 (amended): the walk returns when a rank decreases along every
    supertype edge leaving a delegate model (no cycle), given more fuel
    than the rank of the starting model; from any model of a cycle of
    delegate entities it returns for no amount of fuel. *)
Theorem walk_terminates_acyclic :
  (forall (m : Model) (rank : DataModel -> nat) (fuel : nat) (d : DataModel)
          (result : list DataModelField),
      rankDecreases m rank = true -> rankOK m rank d = true -> (rank d < fuel)%nat ->
      exists r, getDiscriminatorFieldsRecursively fuel m d result = Some r)
  /\ (forall (m : Model) (ns : list string) (n : string) (x : DataModel),
        delegateCycle m ns = true -> In n ns -> resolveDataModel m n = Some x ->
        forall fuel result, getDiscriminatorFieldsRecursively fuel m x result = None).
Proof.
  split; [|intros m ns n x Hc Hn Ex fuel result; exact (delegateCycle_walk_none m ns Hc fuel n x result Hn Ex)].
  intros m rank fuel d result Hdec. revert d result.
  induction fuel as [|f IH]; intros d result Hd Hlt; [lia|].
  cbn [getDiscriminatorFieldsRecursively].
  destruct (isDelegateModel d) eqn:Hdel; [|eauto].
  apply superTypesLoop_some. intros st sup Hin Hres r.
  unfold rankOK in Hd. rewrite Hdel in Hd. simpl in Hd.
  rewrite forallb_forall in Hd. specialize (Hd st Hin). rewrite Hres in Hd.
  apply Nat.ltb_lt in Hd.
  apply IH; [|lia].
  unfold rankDecreases in Hdec. rewrite forallb_forall in Hdec.
  exact (Hdec sup (resolveDataModel_in _ _ _ Hres)).
Qed.

(** The walk from [Mid2] recurses into its delegate supertype [Base2] and
    returns; the walk from [Cyc2] on [schemaCyclic] returns for no fuel. *)
Lemma walk_terminates_acyclic_witness :
  isDelegateModel Mid2 = true /\ dm_superTypes Mid2 = ["Base"] /\
  (exists r, getDiscriminatorFieldsRecursively (walkFuel schemaTwoLevel) schemaTwoLevel Mid2 [] = Some r)
  /\ getDiscriminatorFieldsRecursively 5000 schemaCyclic Cyc2 [] = None.
Proof.
  split; [reflexivity|]. split; [reflexivity|]. split.
  - apply (proj1 walk_terminates_acyclic schemaTwoLevel depthTwoLevel);
      vm_compute; [reflexivity | reflexivity | lia].
  - apply (proj2 walk_terminates_acyclic schemaCyclic ["Cyc1"; "Cyc2"] "Cyc2");
      vm_compute; [reflexivity | right; left; reflexivity | reflexivity].
Defined.

(** ** Retry of [prisma generate] *)

(** The message of the fatal error on the logical schema. *)
Lemma generateLogicalPrisma_first_failure (m : Model) (outDir : string) (w : World)
  (b : bool) (rest : list bool) :
  execResults w = false :: b :: rest ->
  generateLogicalPrisma m outDir w
  = (mkWorld ((pathJoin outDir "logical.prisma", FText EmptyString)
                :: filter (fun e => negb (String.eqb (fst e) (pathJoin outDir "logical.prisma")))
                          (files w))
             rest (generatedClient w),
     Fail (PluginError pluginName
             ("Failed to run " +++ dq +++ "prisma generate" +++ dq
              +++ " on logical schema: " +++ pathJoin outDir "logical.prisma"))).
Proof.
  destruct w as [fs ex gc]. simpl. intros ->.
  unfold generateLogicalPrisma, bind, tryCatch, writeFile, execPackage, trackPrismaSchemaError,
    ret, throw.
  simpl. destruct b; reflexivity.
Qed.

(** C8 (counterexample): the first [prisma generate] fails and the retry
    succeeds, yet the run fails with a plugin error. *)
Theorem retry_success_still_fatal :
  exists msg, snd (generateLogicalPrisma schemaAB "out" (initialWorld [false; true]))
              = Fail (PluginError pluginName msg).
Proof. eexists. vm_compute. reflexivity. Qed.

(** C8 (amended): when the first [prisma generate] fails, it is run once
    more and the run then fails with a plugin error whatever the second
    outcome; [logical.prisma], written before, stays.  When the first
    succeeds, the run goes on with [processClientTypes]. *)
Theorem generate_failure_always_fatal (m : Model) (outDir : string) (w : World) :
  (forall b rest, execResults w = false :: b :: rest ->
     let '(w', res) := generateLogicalPrisma m outDir w in
     (exists msg, res = Fail (PluginError pluginName msg))
     /\ execResults w' = rest
     /\ lookupFile (pathJoin outDir "logical.prisma") (files w') = Some (FText EmptyString))
  /\ (forall rest, execResults w = true :: rest ->
       generateLogicalPrisma m outDir w
       = processClientTypesM m (pathJoin outDir ".logical-prisma-client")
           (mkWorld ((pathJoin outDir "logical.prisma", FText EmptyString)
                       :: filter (fun e => negb (String.eqb (fst e) (pathJoin outDir "logical.prisma")))
                                 (files w))
                    rest (generatedClient w))).
Proof.
  split.
  - intros b rest H. rewrite (generateLogicalPrisma_first_failure m outDir w b rest H).
    split; [eexists; reflexivity|]. split; [reflexivity|].
    unfold lookupFile. simpl. rewrite String.eqb_refl. reflexivity.
  - intros rest. destruct w as [fs ex gc]. simpl. intros ->.
    reflexivity.
Qed.

Lemma generate_failure_always_fatal_witness :
  snd (generateLogicalPrisma schemaAB "out" (initialWorld [false; true]))
  = Fail (PluginError pluginName
            ("Failed to run " +++ dq +++ "prisma generate" +++ dq
             +++ " on logical schema: " +++ pathJoin "out" "logical.prisma"))
  /\ lookupFile "out/logical.prisma"
       (files (fst (generateLogicalPrisma schemaAB "out" (initialWorld [false; true]))))
     = Some (FText EmptyString).
Proof.
  pose proof (proj1 (generate_failure_always_fatal schemaAB "out" (initialWorld [false; true]))
                true [] eq_refl) as H.
  split; [vm_compute; reflexivity|].
  destruct (generateLogicalPrisma schemaAB "out" (initialWorld [false; true])) as [w' res].
  exact (proj2 (proj2 H)).
Defined.

(** * Further properties of the generator *)

(** ** The text rewrites only delete *)

Lemma subseq_refl (s : string) : subseq s s.
Proof. induction s; constructor; assumption. Qed.

Lemma subseq_trans (a b c : string) : subseq a b -> subseq b c -> subseq a c.
Proof.
  intros Hab Hbc. revert a Hab. induction Hbc as [t|x s t H IH|x s t H IH]; intros a Hab.
  - inversion Hab. constructor.
  - inversion Hab; subst; constructor; auto.
  - constructor. auto.
Qed.

Lemma subseq_dropS (n : nat) (s : string) : subseq (dropS n s) s.
Proof.
  revert s; induction n as [|n IH]; intros s; [apply subseq_refl|].
  destruct s as [|c s]; [constructor|]. simpl. constructor. apply IH.
Qed.

Lemma subseq_jsReplace (pat s : string) : subseq (jsReplace pat s) s.
Proof.
  induction s as [|c s IH].
  - change (jsReplace pat EmptyString)
      with (if String.prefix pat EmptyString then dropS (String.length pat) EmptyString
            else EmptyString).
    destruct (String.prefix pat EmptyString); [apply subseq_dropS | constructor].
  - change (jsReplace pat (String c s))
      with (if String.prefix pat (String c s) then dropS (String.length pat) (String c s)
            else String c (jsReplace pat s)).
    destruct (String.prefix pat (String c s)); [apply subseq_dropS | constructor; exact IH].
Qed.

Lemma subseq_fold_left {A} (f : string -> A -> string) (l : list A) (src : string) :
  (forall x s, subseq (f s x) s) -> subseq (fold_left f l src) src.
Proof.
  intros Hf. revert src; induction l as [|x l IH]; intros src; simpl; [apply subseq_refl|].
  eapply subseq_trans; [apply IH | apply Hf].
Qed.

Ltac subseq_fold :=
  apply subseq_fold_left; intros;
  repeat match goal with |- context [match ?x with _ => _ end] => destruct x end;
  first [apply subseq_jsReplace | apply subseq_refl].

Lemma removeAux_subseq (ta : TypeAliasDeclaration) (source : string) :
  subseq (removeAuxFieldsFromTypeAlias ta source) source.
Proof. unfold removeAuxFieldsFromTypeAlias. subseq_fold. Qed.

Lemma removeDiscriminator_subseq (m : Model) (info : DelegateInfo) (ta : TypeAliasDeclaration)
  (source out : string) :
  removeDiscriminatorFromConcreteInput m info ta source = Some out -> subseq out source.
Proof.
  unfold removeDiscriminatorFromConcreteInput.
  repeat match goal with |- context [match ?x with _ => _ end] => destruct x end;
    intros H; try discriminate; injection H as <-; first [apply subseq_refl | subseq_fold].
Qed.

Lemma removeCreate_subseq (info : DelegateInfo) (ta : TypeAliasDeclaration) (source out : string) :
  removeCreateFromDelegateInput info ta source = Some out -> subseq out source.
Proof.
  unfold removeCreateFromDelegateInput.
  repeat match goal with |- context [match ?x with _ => _ end] => destruct x end;
    intros H; try discriminate; injection H as <-; first [apply subseq_refl | subseq_fold].
Qed.

Lemma removeNested_subseq (m : Model) (ta : TypeAliasDeclaration) (source out : string) :
  removeDelegateFieldsFromNestedMutationInput m ta source = Some out -> subseq out source.
Proof.
  unfold removeDelegateFieldsFromNestedMutationInput.
  repeat match goal with |- context [match ?x with _ => _ end] => destruct x end;
    intros H; try discriminate; injection H as <-;
    first [ apply subseq_refl | apply subseq_jsReplace
          | eapply subseq_trans; [subseq_fold | first [apply subseq_refl | apply subseq_jsReplace]] ].
Qed.

(** The four subtractive rewrites never add text: each result is its input
    with some characters deleted (or the step throws). *)
Theorem subtractive_rewrites_only_delete :
  (forall ta source, subseq (removeAuxFieldsFromTypeAlias ta source) source)
  /\ (forall m info ta source out,
        removeDiscriminatorFromConcreteInput m info ta source = Some out -> subseq out source)
  /\ (forall info ta source out,
        removeCreateFromDelegateInput info ta source = Some out -> subseq out source)
  /\ (forall m ta source out,
        removeDelegateFieldsFromNestedMutationInput m ta source = Some out -> subseq out source).
Proof.
  split; [exact removeAux_subseq|].
  split; [exact removeDiscriminator_subseq|].
  split; [exact removeCreate_subseq | exact removeNested_subseq].
Qed.

Lemma subtractive_rewrites_only_delete_witness :
  subseq (printType videoCreateInputOnce) (printType (ta_type videoCreateInput)).
Proof.
  apply (proj1 (proj2 subtractive_rewrites_only_delete) schemaSubkind
           (buildDelegateInfo schemaSubkind) videoCreateInput).
  vm_compute. reflexivity.
Defined.

(** [transformTypeAlias] keeps the alias's name and type parameters; its
    type text is the original text with some characters deleted, unless the
    alias is the [$<D>Payload] of an indexed delegate [D] whose
    discriminator resolves, in which case it is the union of the payload
    alternatives of [D]'s subtypes. *)
Theorem transformTypeAlias_shape (m : Model) (info : DelegateInfo) (ta : TypeAliasDeclaration)
  (st : TypeAliasStructure) :
  transformTypeAlias m info ta = Some st ->
  tas_name st = ta_name ta /\ tas_typeParameters st = ta_typeParameters ta
  /\ (subseq (tas_type st) (printType (ta_type ta))
      \/ exists d subs f, In (d, subs) info /\ ta_name ta = "$" +++ dm_name d +++ "Payload"
                          /\ getDiscriminatorField d = Some f
                          /\ tas_type st = String.concat " | "
                                             (map (payloadAlternative (field_name f)) subs)).
Proof.
  unfold transformTypeAlias.
  destruct (removeDiscriminatorFromConcreteInput _ _ _ _) as [s2|] eqn:E2; [|discriminate].
  destruct (removeCreateFromDelegateInput _ _ s2) as [s3|] eqn:E3; [|discriminate].
  destruct (removeDelegateFieldsFromNestedMutationInput _ _ s3) as [s4|] eqn:E4; [|discriminate].
  intros H. injection H as <-. simpl. split; [reflexivity|]. split; [reflexivity|].
  assert (Hs4 : subseq s4 (printType (ta_type ta))).
  { eapply subseq_trans; [exact (removeNested_subseq _ _ _ _ E4)|].
    eapply subseq_trans; [exact (removeCreate_subseq _ _ _ _ E3)|].
    eapply subseq_trans; [exact (removeDiscriminator_subseq _ _ _ _ _ E2)|].
    apply removeAux_subseq. }
  unfold fixDelegatePayloadType.
  destruct (find _ info) as [[d subs]|] eqn:Ef; [|left; exact Hs4].
  destruct (getDiscriminatorField d) as [f|] eqn:Ed; [|left; exact Hs4].
  right. exists d, subs, f. apply find_some in Ef as [Hin Heq].
  apply String.eqb_eq in Heq. auto.
Qed.

Lemma transformTypeAlias_shape_witness :
  tas_name (mkTypeAliasStructure "VideoCreateInput" [] (printType videoCreateInputOnce))
  = ta_name videoCreateInput.
Proof.
  apply (transformTypeAlias_shape schemaSubkind (buildDelegateInfo schemaSubkind) videoCreateInput).
  vm_compute. reflexivity.
Defined.

(** ** Interfaces *)

Lemma filter_all {A} (f : A -> bool) (l : list A) :
  (forall x, In x l -> f x = true) -> filter f l = l.
Proof.
  induction l as [|x l IH]; intros H; simpl; [reflexivity|].
  rewrite (H x (or_introl eq_refl)), IH; [reflexivity|]. intros y Hy. apply H. right. exact Hy.
Qed.

(** [transformInterface] keeps the interface's name, only removes
    properties and methods, and applying it twice gives the same result as
    applying it once. *)
Theorem transformInterface_idempotent (info : DelegateInfo) (iface : InterfaceDeclaration) :
  if_name (transformInterface info iface) = if_name iface
  /\ incl (if_properties (transformInterface info iface)) (if_properties iface)
  /\ incl (if_methods (transformInterface info iface)) (if_methods iface)
  /\ transformInterface info (transformInterface info iface) = transformInterface info iface.
Proof.
  unfold transformInterface. cbn [if_name if_properties if_methods].
  set (fa := fun p : string * string => negb (startsWith (fst p) DELEGATE_AUX_RELATION_PREFIX)).
  set (fc := fun p : string * string =>
               negb (existsb (String.eqb (fst p)) ["create"; "createMany"; "upsert"])).
  split; [reflexivity|]. split.
  { intros x Hx. apply filter_In in Hx. apply Hx. }
  split.
  { intros x Hx. destruct (existsb _ info); [apply filter_In in Hx as [Hx _]|];
      apply filter_In in Hx; apply Hx. }
  f_equal.
  - apply filter_all. intros x Hx. apply filter_In in Hx. apply Hx.
  - destruct (existsb _ info).
    + rewrite (filter_all fa (filter fc (filter fa (if_methods iface)))).
      * apply filter_all. intros x Hx. apply filter_In in Hx. apply Hx.
      * intros x Hx. apply filter_In in Hx as [Hx _]. apply filter_In in Hx. apply Hx.
    + apply filter_all. intros x Hx. apply filter_In in Hx as [Hx Ha]. exact Ha.
Qed.

(** ** Variable statements *)

Lemma fold_option_map_none (fs : list PropertySignature) :
  fold_left (fun src f => option_map (jsReplace (propText f)) src) fs None = None.
Proof. induction fs as [|f fs IH]; simpl; [reflexivity | exact IH]. Qed.

(** [transformVariableStatement] keeps the declarations and their names in
    order; a declaration has a type annotation afterwards exactly when it
    had one before, and its text is the original text with some characters
    deleted. *)
Theorem transformVariableStatement_keeps_declarations (v : VariableStatement) :
  map fst (transformVariableStatement v) = map fst v
  /\ Forall2 (fun (o : string * option string) (i : string * option TypeExpr) =>
                match snd o, snd i with
                | Some t, Some ty => subseq t (printType ty)
                | None, None => True
                | _, _ => False
                end) (transformVariableStatement v) v.
Proof.
  unfold transformVariableStatement, variableStructure.
  destruct (findAuxDecls _) as [|f fs].
  - split.
    + rewrite map_map. apply map_ext. intros [n ty]. reflexivity.
    + induction v as [|[n ty] v IH]; constructor; [|exact IH].
      destruct ty; simpl; [apply subseq_refl | exact I].
  - split.
    + rewrite !map_map. apply map_ext. intros [n ty]. reflexivity.
    + induction v as [|[n ty] v IH]; constructor; [|exact IH].
      destruct ty as [ty|]; cbn [map snd option_map].
      * rewrite fold_option_map. apply subseq_fold_left. intros; apply subseq_jsReplace.
      * rewrite fold_option_map_none. exact I.
Qed.

(** ** The discriminator-chain walk only appends *)

Lemma superTypesLoop_extends (rec : DataModel -> list DataModelField -> option (list DataModelField))
  (m : Model) (sts : list string) :
  (forall sup x y, rec sup x = Some y -> exists t, y = x ++ t) ->
  forall x y, superTypesLoop rec m sts x = Some y -> exists t, y = x ++ t.
Proof.
  intros Hrec. induction sts as [|st sts IH]; intros x y H; simpl in H.
  - injection H as <-. exists []. symmetry. apply app_nil_r.
  - destruct (resolveDataModel m st) as [sup|].
    + destruct (rec sup x) as [r'|] eqn:E; [|discriminate].
      destruct (Hrec _ _ _ E) as [t ->]. destruct (IH _ _ H) as [t' ->].
      exists (t ++ (x ++ t) ++ t'). rewrite !app_assoc. reflexivity.
    + exact (IH _ _ H).
Qed.

(** [getDiscriminatorFieldsRecursively] returns the array it was given with
    elements appended, never removed or reordered; when the starting model
    is a delegate whose discriminator resolves, that discriminator is the
    first element appended. *)
Theorem walk_only_appends (fuel : nat) (m : Model) (d : DataModel)
  (result out : list DataModelField) :
  getDiscriminatorFieldsRecursively fuel m d result = Some out ->
  (exists t, out = result ++ t)
  /\ (forall f, isDelegateModel d = true -> getDiscriminatorField d = Some f ->
                exists t, out = result ++ f :: t).
Proof.
  assert (Hgen : forall fuel d result out,
             getDiscriminatorFieldsRecursively fuel m d result = Some out ->
             exists t, out = result ++ t).
  { clear. induction fuel as [|fuel IH]; intros d result out H; [discriminate|].
    cbn [getDiscriminatorFieldsRecursively] in H.
    destruct (isDelegateModel d); [|injection H as <-; exists []; symmetry; apply app_nil_r].
    apply superTypesLoop_extends in H; [|exact (IH)].
    destruct H as [t ->]. destruct (getDiscriminatorField d).
    - exists ([d0] ++ t). rewrite <- app_assoc. reflexivity.
    - exists t. reflexivity. }
  intros H. split; [exact (Hgen _ _ _ _ H)|].
  intros f Hd Hf. destruct fuel as [|fuel]; [discriminate|].
  cbn [getDiscriminatorFieldsRecursively] in H. rewrite Hd, Hf in H.
  apply superTypesLoop_extends in H; [|intros sup x y; apply Hgen].
  destruct H as [t ->]. exists t. rewrite <- app_assoc. reflexivity.
Qed.

Lemma walk_only_appends_witness :
  exists t, [plainField "type"; plainField "kind"; plainField "type"; plainField "kind"]
            = [] ++ plainField "type" :: t.
Proof.
  apply (proj2 (walk_only_appends (walkFuel schemaTwoLevel) schemaTwoLevel Mid2 []
                  [plainField "type"; plainField "kind"; plainField "type"; plainField "kind"]
                  ltac:(vm_compute; reflexivity))); vm_compute; reflexivity.
Defined.

(** ** The hierarchy index *)

Lemma nonempty_filter {A} (f : A -> bool) (l : list A) :
  match filter f l with [] => false | _ :: _ => true end = existsb f l.
Proof. induction l as [|x l IH]; simpl; [reflexivity|]. destruct (f x); simpl; auto. Qed.

(** The index built by [processClientTypes] has one entry per
    delegate-marked model, in declaration order; an entry lists exactly the
    models of the schema that name the delegate as a supertype; and
    [hasDelegateModel] holds exactly when some entry has a subtype. *)
Theorem buildDelegateInfo_spec (m : Model) :
  map fst (buildDelegateInfo m) = filter isDelegateModel (dataModelsOf m)
  /\ (forall d subs, In (d, subs) (buildDelegateInfo m) ->
        forall c, In c subs <-> In c (dataModelsOf m)
                                /\ existsb (fun s => refersTo m s d) (dm_superTypes c) = true)
  /\ hasDelegateModel m
     = existsb (fun e => match snd e with [] => false | _ :: _ => true end) (buildDelegateInfo m).
Proof.
  unfold buildDelegateInfo. split; [|split].
  - rewrite map_map. apply map_id.
  - intros d subs Hin c. apply in_map_iff in Hin as [d' [Heq _]]. injection Heq as <- <-.
    apply filter_In.
  - unfold hasDelegateModel, getDataModels.
    set (L := dataModelsOf m).
    assert (Hl : forall l : list DataModel,
      existsb (fun dm => isDelegateModel dm &&
                         existsb (fun sub => existsb (fun base => refersTo m base dm)
                                                     (dm_superTypes sub)) L) l
      = existsb (fun e : DataModel * list DataModel =>
                   match snd e with [] => false | _ :: _ => true end)
          (map (fun dm => (dm, filter (fun d => existsb (fun s => refersTo m s dm)
                                                        (dm_superTypes d)) L))
               (filter isDelegateModel l))).
    { induction l as [|x l IH]; [reflexivity|].
      simpl. destruct (isDelegateModel x); simpl; [|exact IH].
      rewrite IH, nonempty_filter. reflexivity. }
    apply Hl.
Qed.

Lemma buildDelegateInfo_spec_witness :
  In (BaseAB, [ConcreteA; ConcreteB]) (buildDelegateInfo schemaAB) /\
  In ConcreteB (dataModelsOf schemaAB) /\
  existsb (fun s => refersTo schemaAB s BaseAB) (dm_superTypes ConcreteB) = true.
Proof.
  assert (Hin : In (BaseAB, [ConcreteA; ConcreteB]) (buildDelegateInfo schemaAB))
    by (vm_compute; left; reflexivity).
  split; [exact Hin|].
  apply (proj1 (proj2 (buildDelegateInfo_spec schemaAB)) _ _ Hin ConcreteB).
  right; left; reflexivity.
Defined.

(** ** The top level of [index-fixed.d.ts] *)

(** When it succeeds, [transformDelegate] ends with a [Prisma] namespace
    whose body is [transformPrismaModule] of the input's first [Prisma]
    namespace, and has no other top-level namespace named [Prisma]; it
    drops every top-level interface and function; and it copies every other
    top-level statement unchanged.  Without a [Prisma] namespace in the
    input it fails ([getModuleOrThrow]). *)
Theorem transformDelegate_top_level (m : Model) (sf : SourceFile) (info : DelegateInfo) :
  (getModuleBody sf "Prisma" = None -> transformDelegate m sf info = None)
  /\ (forall out, transformDelegate m sf info = Some out ->
        (exists pre pm body, getModuleBody sf "Prisma" = Some pm
                             /\ transformPrismaModule m info pm = Some body
                             /\ out = pre ++ [OModule "Prisma" body]
                             /\ forallb (fun x => negb (isPrismaModuleS x)) pre = true)
        /\ forallb (fun x => negb (isInterfaceOrFunctionS x)) out = true
        /\ (forall s, In s sf -> copiedTopLevel s = true -> In (getStructure s) out)).
Proof.
  unfold transformDelegate. split; [intros ->; reflexivity|].
  intros out. destruct (getModuleBody sf "Prisma") as [pm|] eqn:Epm; [|discriminate].
  destruct (transformPrismaModule m info pm) as [np|] eqn:Enp; [|discriminate].
  intros H. injection H as <-.
  split; [|split].
  - exists (map getStructure (getImportDeclarations sf)
            ++ map getStructure (getImportEquals sf)
            ++ map getStructure (getExportAssignments sf)
            ++ map (fun ta => OTypeAlias (typeAliasStructure ta)) (getTypeAliases sf)
            ++ map getStructure (getClasses sf)
            ++ map (fun v => OVariable (variableStructure v)) (getVariableStatements sf)
            ++ map getStructure (filter (fun s => negb (String.eqb (moduleName s) "Prisma"))
                                        (getModules sf))), pm, np.
    split; [reflexivity|]. split; [exact Enp|].
    split; [rewrite <- !app_assoc; reflexivity|].
    apply forallb_forall. intros x Hx. repeat rewrite in_app_iff in Hx.
    repeat destruct Hx as [Hx|Hx];
      apply in_map_iff in Hx as [s [<- Hs]];
      try (apply filter_In in Hs as [_ Hs]; destruct s; simpl in *; try discriminate;
           try reflexivity; rewrite Hs; reflexivity);
      try (apply in_flat_map in Hs as [s' [_ Hs]]; destruct s'; simpl in Hs;
           destruct Hs as [<-|[]]; reflexivity);
      reflexivity.
  - apply forallb_forall. intros x Hx. repeat rewrite in_app_iff in Hx.
    repeat destruct Hx as [Hx|Hx]; try (subst x; reflexivity); try contradiction;
      apply in_map_iff in Hx as [s [<- Hs]];
      try (apply filter_In in Hs as [Hs1 Hs]; try (apply filter_In in Hs1 as [_ Hs1]);
           destruct s; simpl in *; try discriminate; reflexivity);
      reflexivity.
  - intros s Hs Hc. repeat rewrite in_app_iff.
    destruct s; simpl in Hc; try discriminate.
    + left. apply in_map. apply filter_In. auto.
    + right; left. apply in_map. apply filter_In. auto.
    + right; right; left. apply in_map. apply filter_In. auto.
    + right; right; right; left. apply (in_map (fun ta => OTypeAlias (typeAliasStructure ta))).
      apply in_flat_map. eexists; split; [exact Hs | left; reflexivity].
    + right; right; right; right; left. apply in_map. apply filter_In. auto.
    + right; right; right; right; right; left.
      apply (in_map (fun v => OVariable (variableStructure v))).
      apply in_flat_map. eexists; split; [exact Hs | left; reflexivity].
    + right; right; right; right; right; right; left. apply in_map. apply filter_In.
      split; [apply filter_In; auto | exact Hc].
Qed.

Lemma transformDelegate_top_level_witness :
  exists pre pm body, getModuleBody clientMixed "Prisma" = Some pm
                      /\ transformPrismaModule schemaLone (buildDelegateInfo schemaLone) pm = Some body
                      /\ [OTypeAlias (typeAliasStructure promiseAlias);
                          OVariable [("dmmf", Some "any")]; OModule "Prisma" []]
                         = pre ++ [OModule "Prisma" body]
                      /\ forallb (fun x => negb (isPrismaModuleS x)) pre = true.
Proof.
  apply (proj2 (transformDelegate_top_level schemaLone clientMixed (buildDelegateInfo schemaLone))).
  vm_compute. reflexivity.
Defined.

(** ** The [Prisma] namespace *)

Lemma mapOption_spec {A B} (f : A -> option B) (l : list A) (out : list B) :
  mapOption f l = Some out -> Forall2 (fun a b => f a = Some b) l out.
Proof.
  revert out; induction l as [|x l IH]; intros out H; simpl in H.
  - injection H as <-. constructor.
  - destruct (f x) as [y|] eqn:E; [|discriminate].
    destruct (mapOption f l) as [ys|]; [|discriminate]. injection H as <-.
    constructor; [exact E | apply IH; reflexivity].
Qed.

Lemma typeAliasNamesS_app (a b : list StatementStructure) :
  typeAliasNamesS (a ++ b) = typeAliasNamesS a ++ typeAliasNamesS b.
Proof. apply flat_map_app. Qed.

Lemma keptInModule_length (body : list Statement) :
  length (filter keptInModule body)
  = length (getImportEquals body) + length (getClasses body) + length (getFunctions body)
    + length (getModules body) + length (getVariableStatements body)
    + length (getInterfaces body) + length (getTypeAliases body).
Proof. induction body as [|s body IH]; [reflexivity|]. destruct s; simpl; lia. Qed.

(** [transformPrismaModule] carries over every statement of the namespace
    body except import declarations and export assignments (which it
    drops): the result has as many statements as the body has of the other
    kinds, and its type aliases keep their names, in order. *)
Theorem transformPrismaModule_keeps_statements (m : Model) (info : DelegateInfo)
  (body : list Statement) (out : list StatementStructure) :
  transformPrismaModule m info body = Some out ->
  length out = length (filter keptInModule body)
  /\ typeAliasNamesS out = map ta_name (getTypeAliases body).
Proof.
  unfold transformPrismaModule.
  destruct (mapOption (transformTypeAlias m info) (getTypeAliases body)) as [tas|] eqn:E;
    [|discriminate].
  intros H. injection H as <-. apply mapOption_spec in E.
  split.
  - rewrite !length_app, !length_map, <- (Forall2_length E).
    rewrite keptInModule_length. lia.
  - rewrite !typeAliasNamesS_app.
    assert (Hv : forall l, typeAliasNamesS (map (fun v => OVariable (transformVariableStatement v)) l) = [])
      by (induction l; simpl; auto).
    assert (Hi : forall l, typeAliasNamesS (map (fun i => OInterface (transformInterface info i)) l) = [])
      by (induction l; simpl; auto).
    rewrite Hv, Hi.
    assert (Hie : forall l, typeAliasNamesS (map getStructure (getImportEquals l)) = []).
    { induction l as [|s l IH]; [reflexivity|]. destruct s; simpl; exact IH. }
    assert (Hcl : forall l, typeAliasNamesS (map getStructure (getClasses l)) = []).
    { induction l as [|s l IH]; [reflexivity|]. destruct s; simpl; exact IH. }
    assert (Hf : forall l, typeAliasNamesS (map getStructure (getFunctions l)) = []).
    { induction l as [|s l IH]; [reflexivity|]. destruct s; simpl; exact IH. }
    assert (Hm : forall l, typeAliasNamesS (map getStructure (getModules l)) = []).
    { induction l as [|s l IH]; [reflexivity|]. destruct s; simpl; exact IH. }
    rewrite Hie, Hcl, Hf, Hm. simpl.
    induction E as [|ta st tas' l Hts E IH]; [reflexivity|].
    simpl. rewrite IH. f_equal.
    exact (proj1 (transformTypeAlias_shape _ _ _ _ Hts)).
Qed.

Lemma transformPrismaModule_keeps_statements_witness :
  length [OVariable [("dmmf", Some "any")]; OTypeAlias (typeAliasStructure promiseAlias)]
  = length (filter keptInModule
              [SImport "import"; STypeAlias promiseAlias; SVariable [("dmmf", Some (TRef "any"))]]).
Proof.
  apply (transformPrismaModule_keeps_statements schemaAB (buildDelegateInfo schemaAB)).
  vm_compute. reflexivity.
Defined.

(** ** Files written by a run *)

Lemma append_cancel_l (a x y : string) : a +++ x = a +++ y -> x = y.
Proof. induction a as [|c a IH]; simpl; [auto | intros H; injection H; exact IH]. Qed.

Lemma pathJoin_neq (dir x y : string) : x <> y -> pathJoin dir x <> pathJoin dir y.
Proof. unfold pathJoin. intros Hne H. apply Hne. exact (append_cancel_l _ _ _ (append_cancel_l _ _ _ H)). Qed.

Lemma find_filter_other (l : list (string * FileContent)) (p q : string) :
  q <> p ->
  find (fun e => String.eqb (fst e) q) (filter (fun e => negb (String.eqb (fst e) p)) l)
  = find (fun e => String.eqb (fst e) q) l.
Proof.
  intros Hne. induction l as [|[k c] l IH]; simpl; [reflexivity|].
  destruct (String.eqb_spec k p) as [->|Hkp]; simpl.
  - apply String.eqb_neq in Hne. rewrite String.eqb_sym, Hne. exact IH.
  - destruct (String.eqb k q); [reflexivity | exact IH].
Qed.

Lemma lookupFile_writeFile_other (p q : string) (c : FileContent) (w : World) :
  q <> p -> lookupFile q (files (fst (writeFile p c w))) = lookupFile q (files w).
Proof.
  intros Hne. unfold lookupFile. simpl.
  destruct (String.eqb_spec p q) as [->|_]; [congruence|].
  rewrite find_filter_other by exact Hne. reflexivity.
Qed.

Lemma index_fixed_neq_models (outDir : string) :
  pathJoin (pathJoin outDir ".logical-prisma-client") "index-fixed.d.ts"
  <> pathJoin outDir "models.d.ts".
Proof.
  unfold pathJoin. rewrite !append_assoc_s. intros H.
  apply append_cancel_l in H. discriminate H.
Qed.

Lemma index_fixed_neq_logical (outDir : string) :
  pathJoin (pathJoin outDir ".logical-prisma-client") "index-fixed.d.ts"
  <> pathJoin outDir "logical.prisma".
Proof.
  unfold pathJoin. rewrite !append_assoc_s. intros H.
  apply append_cancel_l in H. discriminate H.
Qed.

Lemma keepsFile_bind (p : string) {A B} (c : M A) (k : A -> M B) :
  keepsFile p c -> (forall a, keepsFile p (k a)) -> keepsFile p (bind c k).
Proof.
  intros Hc Hk w. unfold bind. specialize (Hc w).
  destruct (c w) as [w' [a|e]]; simpl in *; [rewrite Hk|]; exact Hc.
Qed.

Lemma keepsFile_tryCatch (p : string) {A} (c : M A) (h : Error -> M A) :
  keepsFile p c -> (forall e, keepsFile p (h e)) -> keepsFile p (tryCatch c h).
Proof.
  intros Hc Hh w. unfold tryCatch. specialize (Hc w).
  destruct (c w) as [w' [a|e]]; simpl in *; [|rewrite Hh]; exact Hc.
Qed.

Lemma keepsFile_ret (p : string) {A} (a : A) : keepsFile p (ret a).
Proof. intros w. reflexivity. Qed.

Lemma keepsFile_throw (p : string) {A} (e : Error) : keepsFile p (@throw A e).
Proof. intros w. reflexivity. Qed.

Lemma keepsFile_execPackage (p cmd : string) : keepsFile p (execPackage cmd).
Proof. intros w. unfold execPackage. destruct (execResults w); reflexivity. Qed.

Lemma keepsFile_writeFile (p q : string) (c : FileContent) :
  p <> q -> keepsFile p (writeFile q c).
Proof. intros Hne w. apply lookupFile_writeFile_other. exact Hne. Qed.

Create HintDb keeps.
#[local] Hint Resolve keepsFile_bind keepsFile_tryCatch keepsFile_ret keepsFile_throw
  keepsFile_execPackage : keeps.

Lemma generateLogicalPrisma_keeps_models (m : Model) (outDir : string) :
  keepsFile (pathJoin outDir "models.d.ts") (generateLogicalPrisma m outDir).
Proof.
  assert (H1 : pathJoin outDir "models.d.ts" <> pathJoin outDir "logical.prisma")
    by (apply pathJoin_neq; discriminate).
  pose proof (index_fixed_neq_models outDir) as H2.
  unfold generateLogicalPrisma, processClientTypesM, trackPrismaSchemaError. cbv zeta.
  apply keepsFile_bind; [apply keepsFile_writeFile; exact H1|intros _].
  apply keepsFile_bind; [auto with keeps|intros _].
  apply keepsFile_bind; [intros w; reflexivity|intros sf].
  destruct (processClientTypes m sf); [|apply keepsFile_throw].
  apply keepsFile_writeFile. intros E. apply H2. symmetry. exact E.
Qed.

Lemma lookupFile_writeFile_same (p : string) (c : FileContent) (w : World) :
  lookupFile p (files (fst (writeFile p c w))) = Some c.
Proof. unfold lookupFile. simpl. rewrite String.eqb_refl. reflexivity. Qed.

(** [generate] either succeeds, reporting whether a logical client was
    produced and leaving [models.d.ts] re-exporting the matching client,
    or it fails, only on the logical path, with [models.d.ts] as it was.
    ([enhance.ts], saved only with [preserveTsFiles], is not modelled.) *)
Theorem generate_models_outcome (m : Model) (outDir prismaImport : string) (w : World) :
  (snd (generate m outDir prismaImport w) = Ok (needsLogicalClient m) /\
   lookupFile (pathJoin outDir "models.d.ts") (files (fst (generate m outDir prismaImport w)))
   = Some (FText (if needsLogicalClient m
                  then "export type * from '" +++ logicalPrismaClientDir +++ "/index-fixed';"
                  else "export type * from '" +++ prismaImport +++ "';")))
  \/ (needsLogicalClient m = true /\
      (exists e, snd (generate m outDir prismaImport w) = Fail e) /\
      lookupFile (pathJoin outDir "models.d.ts") (files (fst (generate m outDir prismaImport w)))
      = lookupFile (pathJoin outDir "models.d.ts") (files w)).
Proof.
  unfold generate. destruct (needsLogicalClient m) eqn:Hn.
  - pose proof (generateLogicalPrisma_keeps_models m outDir w) as Hk.
    unfold bind. destruct (generateLogicalPrisma m outDir w) as [w1 [[]|e]]; simpl in Hk.
    + left. split; [reflexivity|]. apply lookupFile_writeFile_same.
    + right. split; [reflexivity|]. split; [exists e; reflexivity|exact Hk].
  - left. split; [reflexivity|]. apply lookupFile_writeFile_same.
Qed.

(** When the first [prisma generate] run succeeds, [generateLogicalPrisma]
    succeeds exactly when [processClientTypes] does, saving its result as
    [index-fixed.d.ts] in the logical client directory next to the
    (empty-modelled) [logical.prisma]; otherwise it fails with the
    transformation error. *)
Theorem generateLogicalPrisma_after_generate (m : Model) (outDir : string) (w : World) :
  hd true (execResults w) = true ->
  (forall out, processClientTypes m (generatedClient w) = Some out ->
   snd (generateLogicalPrisma m outDir w) = Ok tt /\
   lookupFile (pathJoin (pathJoin outDir ".logical-prisma-client") "index-fixed.d.ts")
     (files (fst (generateLogicalPrisma m outDir w))) = Some (FDecls out) /\
   lookupFile (pathJoin outDir "logical.prisma")
     (files (fst (generateLogicalPrisma m outDir w))) = Some (FText EmptyString)) /\
  (processClientTypes m (generatedClient w) = None ->
   snd (generateLogicalPrisma m outDir w) = Fail (RuntimeError "transformation failed")).
Proof.
  intros Hhd.
  pose proof (index_fixed_neq_logical outDir) as H2.
  unfold generateLogicalPrisma, processClientTypesM, readGeneratedClient, trackPrismaSchemaError,
    tryCatch, bind, ret, throw.
  cbv zeta.
  set (w1 := fst (writeFile (pathJoin outDir "logical.prisma") (FText EmptyString) w)).
  assert (E1 : writeFile (pathJoin outDir "logical.prisma") (FText EmptyString) w = (w1, Ok tt))
    by reflexivity.
  assert (Hlog : lookupFile (pathJoin outDir "logical.prisma") (files w1) = Some (FText EmptyString))
    by apply lookupFile_writeFile_same.
  assert (Hgc : generatedClient w1 = generatedClient w) by reflexivity.
  assert (Hex : execResults w1 = execResults w) by reflexivity.
  rewrite E1. clearbody w1.
  unfold execPackage.
  set (cmd := "prisma generate --schema " +++ dq +++ pathJoin outDir "logical.prisma" +++ dq
              +++ " --no-engine").
  set (w2 := match execResults w1 with
             | [] => w1
             | _ :: rest => mkWorld (files w1) rest (generatedClient w1)
             end).
  assert (E2 : match execResults w1 with
               | [] => (w1, @Ok unit tt)
               | b :: rest => (mkWorld (files w1) rest (generatedClient w1),
                               if b then Ok tt else Fail (RuntimeError ("Command failed: " +++ cmd)))
               end = (w2, Ok tt)).
  { subst w2. rewrite Hex. destruct (execResults w) as [|b rest]; [reflexivity|].
    simpl in Hhd. subst b. reflexivity. }
  assert (Hf2 : files w2 = files w1) by (subst w2; destruct (execResults w1); reflexivity).
  assert (Hg2 : generatedClient w2 = generatedClient w)
    by (subst w2; destruct (execResults w1); exact Hgc).
  rewrite E2. clearbody w2. cbv beta iota. rewrite Hg2.
  split.
  - intros out Hout. rewrite Hout. split; [reflexivity|]. split.
    + apply lookupFile_writeFile_same.
    + rewrite lookupFile_writeFile_other by (intro E; apply H2; symmetry; exact E).
      rewrite Hf2. exact Hlog.
  - intros Hout. rewrite Hout. reflexivity.
Qed.

Lemma generateLogicalPrisma_after_generate_witness :
  hd true (execResults (initialWorld [true])) = true /\
  snd (generateLogicalPrisma schemaLone "out" (initialWorld [true])) = Ok tt.
Proof.
  split; [reflexivity|].
  pose proof (proj1 (generateLogicalPrisma_after_generate schemaLone "out" (initialWorld [true])
                       eq_refl)) as H.
  destruct (processClientTypes schemaLone (generatedClient (initialWorld [true]))) as [out|] eqn:E.
  - exact (proj1 (H out eq_refl)).
  - vm_compute in E. discriminate E.
Defined.
